(** * pi-parallel-agents: a shallow embedding of the orchestrator core

    The development follows the TypeScript sources:
    - [executor.ts]   : [getFinalOutput], [truncateOutput], the tail of [runAgent];
    - [workspace.ts]  : [writeTaskResult];
    - [dag.ts]        : [buildDag], [updateReadyState], [parseReviewDecision],
                        [runReviewCycle], [executeDag];
    - [index.ts]      : the mode dispatcher [execute] and its chain mode.

    JavaScript strings are sequences of UTF-16 code units; they are modelled
    as lists of [N].  The numbers a caller supplies ([maxIterations],
    [maxConcurrency]) are finite doubles, hence rationals: they are modelled
    in [Q], on which comparison and [Math.min] are exact.  Counters the code
    itself increments are integers.  Child processes and callbacks are
    modelled by oracles that hand back the value the code awaits. *)

From Stdlib Require Import ZArith QArith Qround Qminmax Lia List Bool String
  Ascii DecimalString.
From stdpp Require Import base list gmap.

Import ListNotations.
Local Open Scope Z_scope.

(** ** JavaScript strings *)

Module JS.

(** A string is the list of its UTF-16 code units. *)
Definition jsstring : Type := list N.

(** ASCII literal of the development as a JavaScript string. *)
Definition lit (s : string) : jsstring :=
  map N_of_ascii (list_ascii_of_string s).

Definition eqb (a b : jsstring) : bool :=
  if decide (a = b) then true else false.

(** [s || d] on strings: the empty string is falsy. *)
Definition orElse (s d : jsstring) : jsstring :=
  match s with [] => d | _ => s end.

Definition NL : N := 10%N.

(** ECMAScript WhiteSpace and LineTerminator code points, the set that
    [String.prototype.trim] strips. *)
Definition isWhiteSpace (c : N) : bool :=
  ((9 <=? c) && (c <=? 13) || (c =? 32) || (c =? 160) || (c =? 5760)
   || (8192 <=? c) && (c <=? 8202) || (c =? 8232) || (c =? 8233)
   || (c =? 8239) || (c =? 8287) || (c =? 12288) || (c =? 65279))%N.

Fixpoint trimStart (s : jsstring) : jsstring :=
  match s with
  | c :: r => if isWhiteSpace c then trimStart r else s
  | [] => []
  end.

Definition trimEnd (s : jsstring) : jsstring := rev (trimStart (rev s)).

Definition trim (s : jsstring) : jsstring := trimEnd (trimStart s).

(** [s.split("\n")]: never empty, the pieces hold no newline. *)
Fixpoint split_nl (s : jsstring) : list jsstring :=
  match s with
  | [] => [[]]
  | c :: r =>
      if (c =? NL)%N then [] :: split_nl r
      else match split_nl r with
           | l :: ls => (c :: l) :: ls
           | [] => [[c]]
           end
  end.

(** [lines.join("\n")]. *)
Fixpoint join_nl (ls : list jsstring) : jsstring :=
  match ls with
  | [] => []
  | l :: ls' =>
      match ls' with
      | [] => l
      | _ :: _ => l ++ NL :: join_nl ls'
      end
  end.

(** Relative index of [slice]: negative counts from the end, and the
    result is clamped to [0 .. len]. *)
Definition relIndex (len : nat) (i : Z) : nat :=
  if i <? 0 then Z.to_nat (Z.max 0 (Z.of_nat len + i))
  else Nat.min (Z.to_nat i) len.

(** [xs.slice(from, to)] for strings and arrays alike. *)
Definition slice {A} (xs : list A) (from : Z) (to : option Z) : list A :=
  let len := length xs in
  let a := relIndex len from in
  let b := match to with Some t => relIndex len t | None => len end in
  firstn (b - a) (skipn a xs).

Fixpoint startsWith (s p : jsstring) : bool :=
  match p, s with
  | [], _ => true
  | c :: p', d :: s' => (c =? d)%N && startsWith s' p'
  | _ :: _, [] => false
  end.

(** [s.includes(p)]. *)
Fixpoint includes (s p : jsstring) : bool :=
  startsWith s p ||
  match s with
  | [] => false
  | _ :: r => includes r p
  end.

(** Lower-casing of the ASCII letters. *)
Definition asciiLowerUnit (c : N) : N :=
  if ((65 <=? c) && (c <=? 90))%N then (c + 32)%N else c.

Definition asciiLower (s : jsstring) : jsstring := map asciiLowerUnit s.

(** [Buffer.byteLength(s, "utf-8")]: one to three bytes per code unit,
    four for a surrogate pair, three for a lone surrogate. *)
Definition isHighSurrogate (c : N) : bool := ((55296 <=? c) && (c <=? 56319))%N.
Definition isLowSurrogate (c : N) : bool := ((56320 <=? c) && (c <=? 57343))%N.

Fixpoint byteLength (s : jsstring) : Z :=
  match s with
  | [] => 0
  | c :: r =>
      if (c <? 128)%N then 1 + byteLength r
      else if (c <? 2048)%N then 2 + byteLength r
      else if isHighSurrogate c then
        match r with
        | d :: r' => if isLowSurrogate d then 4 + byteLength r'
                     else 3 + byteLength r
        | [] => 3
        end
      else 3 + byteLength r
  end.

(** Template-literal rendering of an integer. *)
Definition ofZ (z : Z) : jsstring := lit (NilZero.string_of_int (Z.to_int z)).

(** [ToIntegerOrInfinity] on a finite number: truncation towards zero, as
    [slice] applies it to its arguments. *)
Definition toInteger (x : Q) : Z :=
  if Qle_bool 0 x then Qfloor x else Qceiling x.

End JS.

Import JS.

(** ** Shared types ([types.ts]) *)

Definition MAX_CONCURRENCY : Z := 8.
Definition DEFAULT_CONCURRENCY : Z := 4.
Definition MAX_OUTPUT_BYTES : Z := 50 * 1024.
Definition MAX_OUTPUT_LINES : Z := 2000.

(** [TaskResult].  The usage counters and the wall-clock duration are left
    out: no decision of the scheduler reads them. *)
Record TaskResult := mkTaskResult {
  r_id : jsstring;
  r_name : option jsstring;
  r_task : jsstring;
  r_model : option jsstring;
  r_exitCode : Z;
  r_output : jsstring;
  r_stderr : jsstring;
  r_truncated : bool;
  r_error : option jsstring;
  r_aborted : bool;
  r_step : option Z
}.

(** ** The executor ([executor.ts]) *)

Inductive Role := user | assistant | toolResult.

Inductive ContentPart :=
| TextPart (text : jsstring)
| ThinkingPart (thinking : jsstring)
| ToolCallPart (name : jsstring).

Record Message := mkMessage {
  m_role : Role;
  m_content : list ContentPart;
  m_stopReason : option jsstring;
  m_errorMessage : option jsstring
}.

Definition isAssistant (m : Message) : bool :=
  match m_role m with assistant => true | _ => false end.

(** The inner loop of [getFinalOutput]: the first part of type "text". *)
Fixpoint firstText (parts : list ContentPart) : option jsstring :=
  match parts with
  | [] => None
  | TextPart t :: _ => Some t
  | _ :: rest => firstText rest
  end.

(** The outer loop of [getFinalOutput], over the messages from the last one
    down to the first. *)
Fixpoint scanBack (fromLast : list Message) : jsstring :=
  match fromLast with
  | [] => []
  | msg :: earlier =>
      if isAssistant msg then
        match firstText (m_content msg) with
        | Some t => t
        | None => scanBack earlier
        end
      else scanBack earlier
  end.

Definition getFinalOutput (messages : list Message) : jsstring :=
  scanBack (rev messages).

(** [result.slice(Math.floor(result.length / 2))]. *)
Definition dropFirstHalf (result : jsstring) : jsstring :=
  skipn (Nat.div (length result) 2) result.

(** The [while] loop of [truncateOutput]; [None] when the fuel runs out. *)
Fixpoint byteLoop (fuel : nat) (maxBytes : Z) (result : jsstring)
  : option jsstring :=
  if (byteLength result >? maxBytes) && (0 <? length result)%nat then
    match fuel with
    | O => None
    | S fuel' => byteLoop fuel' maxBytes (dropFirstHalf result)
    end
  else Some result.

(** [lines.splice(0, lines.length - maxLines)] under the guard of the source. *)
Definition capLines (maxLines : Z) (lines : list jsstring) : list jsstring :=
  if Z.of_nat (length lines) >? maxLines
  then skipn (Z.to_nat (Z.of_nat (length lines) - maxLines)) lines
  else lines.

Definition overLines (maxLines : Z) (lines : list jsstring) : bool :=
  Z.of_nat (length lines) >? maxLines.

(** [truncateOutput].  A string of length [n] is halved at most [n] times
    before the loop either stops or is stuck on one code unit, so the fuel
    [length result] separates the runs that return from those that do not. *)
Definition truncateOutput (output : jsstring) (maxBytes maxLines : Z)
  : option (jsstring * bool) :=
  let lines := split_nl output in
  let truncated := overLines maxLines lines in
  let result := join_nl (capLines maxLines lines) in
  if byteLength result >? maxBytes then
    match byteLoop (length result) maxBytes result with
    | Some result' => Some (result', true)
    | None => None
    end
  else Some (result, truncated).

(** Options of [runAgent] that end up in the result or in the prompt. *)
Record ExecutorOptions := mkExecutorOptions {
  o_task : jsstring;
  o_provider : option jsstring;
  o_model : option jsstring;
  o_tools : option (list jsstring);
  o_systemPrompt : option jsstring;
  o_context : option jsstring;
  o_thinking : option jsstring;
  o_id : jsstring;
  o_name : option jsstring;
  o_step : option Z
}.

(** Parsed lines of the child's stdout.  Blank and unparseable lines are
    dropped by [processLine] before any dispatch, so they are not events. *)
Inductive Event :=
| MessageEnd (message : option Message)
| ToolExecutionStart (toolName : option jsstring)
| ToolExecutionEnd
| ToolResultEnd (message : option Message)
| OtherEvent (type : jsstring).

(** The part of the closure state of [runAgent] that reaches the result. *)
Record RunState := mkRunState {
  messages : list Message;
  apiError : jsstring
}.

(** [rawMsg.stopReason === "error" && rawMsg.errorMessage]: the recorded
    text, when the message signals an API error with a truthy message. *)
Definition apiErrorOf (msg : Message) : option jsstring :=
  match m_stopReason msg, m_errorMessage msg with
  | Some reason, Some (c :: text) =>
      if JS.eqb reason (lit "error") then Some (c :: text) else None
  | _, _ => None
  end.

Definition processLine (st : RunState) (event : Event) : RunState :=
  match event with
  | MessageEnd (Some msg) =>
      let pushed := messages st ++ [msg] in
      if isAssistant msg then
        match apiErrorOf msg with
        | Some text => mkRunState pushed text
        | None => mkRunState pushed (apiError st)
        end
      else mkRunState pushed (apiError st)
  | ToolResultEnd (Some msg) => mkRunState (messages st ++ [msg]) (apiError st)
  | _ => st
  end.

(** What the child process does, as seen by [runAgent]: its event stream,
    the code the exit promise resolves to ([code ?? 0], or [1] on a spawn
    error), its stderr, and whether the abort signal fired. *)
Record ChildRun := mkChildRun {
  c_events : list Event;
  c_exitCode : Z;
  c_stderr : jsstring;
  c_aborted : bool
}.

(** The result object and the two rewrites that follow its construction. *)
Definition finishRun (options : ExecutorOptions) (child : ChildRun)
    (apiErr : jsstring) (shaped : jsstring * bool) : TaskResult :=
  let exitCode := c_exitCode child in
  let aborted := c_aborted child in
  let error :=
    if negb (exitCode =? 0) && negb aborted
    then Some (orElse (c_stderr child) (lit "Exit code: " ++ ofZ exitCode))
    else None in
  let rewrite :=
    match apiErr, error with
    | _ :: _, None => true
    | _ :: _, Some [] => true
    | _, _ => false
    end in
  {| r_id := o_id options;
     r_name := o_name options;
     r_task := o_task options;
     r_model := o_model options;
     r_exitCode := if rewrite then 1 else exitCode;
     r_output := fst shaped;
     r_stderr := c_stderr child;
     r_truncated := snd shaped;
     r_error := if rewrite then Some apiErr else error;
     r_aborted := aborted;
     r_step := o_step options |}.

(** [runAgent], from the events of the child to the returned [TaskResult];
    [None] only if [truncateOutput] does not return. *)
Definition runAgent (options : ExecutorOptions) (child : ChildRun)
  : option TaskResult :=
  let st := fold_left processLine (c_events child) (mkRunState [] []) in
  let finalOutput := getFinalOutput (messages st) in
  match truncateOutput finalOutput MAX_OUTPUT_BYTES MAX_OUTPUT_LINES with
  | Some shaped => Some (finishRun options child (apiError st) shaped)
  | None => None
  end.

(** ** The workspace ([workspace.ts]) *)

Record Workspace := mkWorkspace {
  w_root : jsstring;
  w_tasksDir : jsstring;
  w_artifactsDir : jsstring
}.

(** The class [[\w.-]] of the sanitising regular expression. *)
Definition isSafeUnit (c : N) : bool :=
  ((48 <=? c) && (c <=? 57) || (65 <=? c) && (c <=? 90)
   || (97 <=? c) && (c <=? 122) || (c =? 95) || (c =? 46) || (c =? 45))%N.

(** [taskId.replace(/[^\w.-]/g, "_")]: the expression has no [u] flag, so
    each code unit is matched on its own. *)
Definition sanitize (taskId : jsstring) : jsstring :=
  map (fun c => if isSafeUnit c then c else 95%N) taskId.

(** [path.join(dir, name)] for a [name] without separator. *)
Definition pathJoin (dir name : jsstring) : jsstring := dir ++ lit "/" ++ name.

(** The object handed to [JSON.stringify]: [{ id, status, output, timestamp }]. *)
Record TaskFile := mkTaskFile {
  f_id : jsstring;
  f_status : jsstring;
  f_output : jsstring;
  f_timestamp : Z
}.

Definition taskFilePath (workspace : Workspace) (taskId : jsstring) : jsstring :=
  pathJoin (w_tasksDir workspace) (sanitize taskId ++ lit ".json").

(** [writeTaskResult] on a file system seen as a finite map from paths to
    the object serialised into the file; [writeFileSync] replaces the file. *)
Definition writeTaskResult (fs : gmap jsstring TaskFile) (workspace : Workspace)
    (taskId output status : jsstring) (now : Z) : gmap jsstring TaskFile :=
  <[ taskFilePath workspace taskId :=
       {| f_id := taskId; f_status := status; f_output := output;
          f_timestamp := now |} ]> fs.

(** ** The DAG engine ([dag.ts]) *)

(** A JavaScript [Map] with string keys: [get], and [set], which keeps the
    position of a key that is already present and appends a new one. *)
Fixpoint mapGet {V} (m : list (jsstring * V)) (k : jsstring) : option V :=
  match m with
  | [] => None
  | (k', v) :: rest => if JS.eqb k' k then Some v else mapGet rest k
  end.

Fixpoint mapSet {V} (m : list (jsstring * V)) (k : jsstring) (v : V)
  : list (jsstring * V) :=
  match m with
  | [] => [(k, v)]
  | (k', v') :: rest =>
      if JS.eqb k' k then (k', v) :: rest else (k', v') :: mapSet rest k v
  end.

Definition mapHas {V} (m : list (jsstring * V)) (k : jsstring) : bool :=
  match mapGet m k with Some _ => true | None => false end.

Inductive Status :=
| pending | blocked | ready | running | completed | failed
| awaiting_approval | reviewing | revising.

Global Instance Status_eq_dec : EqDecision Status.
Proof. solve_decision. Defined.

Record ReviewConfig := mkReviewConfig {
  rv_assignee : jsstring;
  rv_task : option jsstring;
  rv_maxIterations : option Q;
  rv_model : option jsstring
}.

Record TeamTask := mkTeamTask {
  t_id : jsstring;
  t_task : jsstring;
  t_assignee : option jsstring;
  t_depends : option (list jsstring);
  t_requiresApproval : bool;
  t_review : option ReviewConfig
}.

Record TeamMember := mkTeamMember {
  tm_role : jsstring;
  tm_provider : option jsstring;
  tm_model : option jsstring;
  tm_tools : option (list jsstring);
  tm_systemPrompt : option jsstring;
  tm_thinking : option jsstring
}.

Record ReviewEntry := mkReviewEntry {
  h_iteration : Z;
  h_workerOutput : jsstring;
  h_reviewerOutput : jsstring;
  h_approved : bool
}.

Record DagNode := mkDagNode {
  n_task : TeamTask;
  n_assignee : option TeamMember;
  n_dependsOn : list jsstring;
  n_dependedBy : list jsstring;
  n_status : Status;
  n_result : option TaskResult;
  n_iteration : option Z;
  n_reviewHistory : option (list ReviewEntry);
  n_iterationResults : option (list TaskResult)
}.

Definition NodeMap : Type := list (jsstring * DagNode).

Definition withStatus (s : Status) (n : DagNode) : DagNode :=
  {| n_task := n_task n; n_assignee := n_assignee n;
     n_dependsOn := n_dependsOn n; n_dependedBy := n_dependedBy n;
     n_status := s; n_result := n_result n; n_iteration := n_iteration n;
     n_reviewHistory := n_reviewHistory n;
     n_iterationResults := n_iterationResults n |}.

(** Mutation of the node object stored under [id]. *)
Fixpoint modify (nodes : NodeMap) (id : jsstring) (f : DagNode -> DagNode)
  : NodeMap :=
  match nodes with
  | [] => []
  | (k, n) :: rest =>
      if JS.eqb k id then (k, f n) :: rest else (k, n) :: modify rest id f
  end.


(** [dep?.status === s] for [dep = nodes.get(depId)]. *)
Definition depHasStatus (nodes : NodeMap) (s : Status) (depId : jsstring) : bool :=
  match mapGet nodes depId with
  | Some dep => bool_decide (n_status dep = s)
  | None => false
  end.

Inductive DagError :=
| DuplicateTaskId (id : jsstring)
| UnknownDependency (id depId : jsstring)
| UnknownMember (id member : jsstring)
| UnknownReviewMember (id member : jsstring)
| DependencyCycle (inCycle : list jsstring).

(** Outcome of a function that may throw; [Diverged] is the fuel of the
    Kahn loop running out. *)
Inductive Thrown (A : Type) :=
| Returned (a : A)
| Threw (e : DagError)
| Diverged.
Arguments Returned {A} a.
Arguments Threw {A} e.
Arguments Diverged {A}.

Fixpoint findDuplicate (seenIds : list jsstring) (tasks : list TeamTask)
  : option jsstring :=
  match tasks with
  | [] => None
  | task :: rest =>
      if existsb (JS.eqb (t_id task)) seenIds then Some (t_id task)
      else findDuplicate (t_id task :: seenIds) rest
  end.

(** A string used as a condition: absent and empty are both falsy. *)
Definition truthy (s : option jsstring) : option jsstring :=
  match s with
  | Some (c :: rest) => Some (c :: rest)
  | _ => None
  end.

Definition newNode (members : list (jsstring * TeamMember)) (task : TeamTask)
  : DagNode :=
  {| n_task := task;
     n_assignee := match truthy (t_assignee task) with
                   | Some a => mapGet members a
                   | None => None
                   end;
     n_dependsOn := match t_depends task with Some ds => ds | None => [] end;
     n_dependedBy := [];
     n_status := pending;
     n_result := None; n_iteration := None;
     n_reviewHistory := None; n_iterationResults := None |}.

Definition createNodes (members : list (jsstring * TeamMember))
    (tasks : list TeamTask) : NodeMap :=
  fold_left (fun nodes task => mapSet nodes (t_id task) (newNode members task))
            tasks [].

Definition pushDependedBy (id : jsstring) (n : DagNode) : DagNode :=
  {| n_task := n_task n; n_assignee := n_assignee n;
     n_dependsOn := n_dependsOn n; n_dependedBy := n_dependedBy n ++ [id];
     n_status := n_status n; n_result := n_result n;
     n_iteration := n_iteration n; n_reviewHistory := n_reviewHistory n;
     n_iterationResults := n_iterationResults n |}.

(** The reverse edges of one node, dependency by dependency. *)
Fixpoint linkDeps (id : jsstring) (deps : list jsstring) (nodes : NodeMap)
  : Thrown NodeMap :=
  match deps with
  | [] => Returned nodes
  | depId :: rest =>
      if mapHas nodes depId
      then linkDeps id rest (modify nodes depId (pushDependedBy id))
      else Threw (UnknownDependency id depId)
  end.

Fixpoint linkAll (entries : list (jsstring * list jsstring)) (nodes : NodeMap)
  : Thrown NodeMap :=
  match entries with
  | [] => Returned nodes
  | (id, deps) :: rest =>
      match linkDeps id deps nodes with
      | Returned nodes' => linkAll rest nodes'
      | other => other
      end
  end.

Definition checkReviewAssignee (members : list (jsstring * TeamMember))
    (id : jsstring) (node : DagNode) : option DagError :=
  match t_review (n_task node) with
  | Some rv =>
      match truthy (Some (rv_assignee rv)) with
      | Some a => if mapHas members a then None
                  else Some (UnknownReviewMember id a)
      | None => None
      end
  | None => None
  end.

Definition checkAssignee (members : list (jsstring * TeamMember))
    (id : jsstring) (node : DagNode) : option DagError :=
  match truthy (t_assignee (n_task node)) with
  | Some a => if mapHas members a then checkReviewAssignee members id node
              else Some (UnknownMember id a)
  | None => checkReviewAssignee members id node
  end.

Fixpoint checkAssignees (members : list (jsstring * TeamMember))
    (entries : NodeMap) : option DagError :=
  match entries with
  | [] => None
  | (id, node) :: rest =>
      match checkAssignee members id node with
      | Some e => Some e
      | None => checkAssignees members rest
      end
  end.

(** The inner loop of Kahn's algorithm over [node.dependedBy]. *)
Fixpoint relax (dependedBy : list jsstring) (inDegree : list (jsstring * Z))
    (queue : list jsstring) : list (jsstring * Z) * list jsstring :=
  match dependedBy with
  | [] => (inDegree, queue)
  | depId :: rest =>
      let newDegree :=
        match mapGet inDegree depId with Some d => d | None => 0 end - 1 in
      relax rest (mapSet inDegree depId newDegree)
            (if newDegree =? 0 then queue ++ [depId] else queue)
  end.

Fixpoint kahn (fuel : nat) (nodes : NodeMap) (inDegree : list (jsstring * Z))
    (queue : list jsstring) (visited : nat)
  : option (nat * list (jsstring * Z)) :=
  match queue with
  | [] => Some (visited, inDegree)
  | id :: queue' =>
      match fuel with
      | O => None
      | S fuel' =>
          let dependedBy :=
            match mapGet nodes id with
            | Some node => n_dependedBy node
            | None => []
            end in
          let '(inDegree', queue'') := relax dependedBy inDegree queue' in
          kahn fuel' nodes inDegree' queue'' (S visited)
      end
  end.

Definition detectCycles (nodes : NodeMap) : Thrown unit :=
  let inDegree :=
    fold_left (fun m '(id, node) => mapSet m id (Z.of_nat (length (n_dependsOn node))))
              nodes [] in
  let queue := map fst (List.filter (fun '(_, degree) => degree =? 0) inDegree) in
  match kahn (S (length nodes)) nodes inDegree queue 0 with
  | None => Diverged
  | Some (visited, inDegree') =>
      if (visited <? length nodes)%nat
      then Threw (DependencyCycle
                    (map fst (List.filter (fun '(_, d) => d >? 0) inDegree')))
      else Returned tt
  end.

Definition allDepsComplete (nodes : NodeMap) (node : DagNode) : bool :=
  forallb (depHasStatus nodes completed) (n_dependsOn node).

Definition anyDepFailed (nodes : NodeMap) (node : DagNode) : bool :=
  existsb (depHasStatus nodes failed) (n_dependsOn node).

(** One turn of the loop of [updateReadyState], on the node under [id]. *)
Definition readyStep (nodes : NodeMap) (id : jsstring) : NodeMap :=
  match mapGet nodes id with
  | Some node =>
      if bool_decide (n_status node = pending) then
        if anyDepFailed nodes node then modify nodes id (withStatus blocked)
        else if allDepsComplete nodes node then modify nodes id (withStatus ready)
        else nodes
      else nodes
  | None => nodes
  end.

(** [updateReadyState]: the nodes are visited in map order and mutated in
    place, so each test reads the statuses as left by the earlier turns. *)
Definition updateReadyState (nodes : NodeMap) : NodeMap :=
  fold_left readyStep (map fst nodes) nodes.

Definition buildDag (tasks : list TeamTask)
    (members : list (jsstring * TeamMember)) : Thrown NodeMap :=
  match findDuplicate [] tasks with
  | Some id => Threw (DuplicateTaskId id)
  | None =>
      let nodes := createNodes members tasks in
      match linkAll (map (fun '(id, node) => (id, n_dependsOn node)) nodes) nodes with
      | Returned linked =>
          match checkAssignees members linked with
          | Some e => Threw e
          | None =>
              match detectCycles linked with
              | Returned _ => Returned (updateReadyState linked)
              | Threw e => Threw e
              | Diverged => Diverged
              end
          end
      | other => other
      end
  end.

Definition getReadyTasks (nodes : NodeMap) : list DagNode :=
  List.filter (fun n => bool_decide (n_status n = ready)) (map snd nodes).



Definition DEFAULT_MAX_ITERATIONS : Z := 3.

Record ApprovalDecision := mkApprovalDecision {
  d_approved : bool;
  d_feedback : option jsstring
}.

(** Everything the engine awaits.  A tick is one awaited call; the run that
    is started at tick [k] resolves to [agentResult k], the approval asked
    at tick [k] to the answer of [onApprovalNeeded], and [signalAborted k]
    is [signal?.aborted] read at that tick. *)
Record World := mkWorld {
  agentResult : nat -> TaskResult;
  onApprovalNeeded : option (nat -> ApprovalDecision);
  signalAborted : nat -> bool
}.

(** State of one call of [executeDag]: the node map, [allResults], the
    tick, and the node maps handed to [onProgress] by each [emitProgress()]
    of the engine itself, latest first. *)
Record Engine := mkEngine {
  e_nodes : NodeMap;
  e_allResults : list TaskResult;
  e_clock : nat;
  e_emitted : list NodeMap
}.

Inductive ReviewExit :=
| ExitAborted          (* [if (signal?.aborted) return] *)
| ExitReviewerFailed   (* reviewer run failed: worker output accepted *)
| ExitDecided          (* approved, or iteration >= maxIter *)
| ExitRevisionFailed   (* worker rerun failed *)
| ExitLoopCondition    (* [node.iteration <= maxIter] is false *)
| ExitOutOfFuel.


Definition store (id : jsstring) (node : DagNode) (E : Engine) : Engine :=
  mkEngine (modify (e_nodes E) id (fun _ => node)) (e_allResults E)
           (e_clock E) (e_emitted E).

Definition emitProgress (E : Engine) : Engine :=
  mkEngine (e_nodes E) (e_allResults E) (e_clock E) (e_nodes E :: e_emitted E).

Definition pushResult (r : TaskResult) (E : Engine) : Engine :=
  mkEngine (e_nodes E) (e_allResults E ++ [r]) (e_clock E) (e_emitted E).

Definition tick (k : nat) (E : Engine) : Engine :=
  mkEngine (e_nodes E) (e_allResults E) (e_clock E + k)%nat (e_emitted E).

Definition setNodes (nodes : NodeMap) (E : Engine) : Engine :=
  mkEngine nodes (e_allResults E) (e_clock E) (e_emitted E).

Definition withResult (r : TaskResult) (n : DagNode) : DagNode :=
  {| n_task := n_task n; n_assignee := n_assignee n;
     n_dependsOn := n_dependsOn n; n_dependedBy := n_dependedBy n;
     n_status := n_status n; n_result := Some r;
     n_iteration := n_iteration n; n_reviewHistory := n_reviewHistory n;
     n_iterationResults := n_iterationResults n |}.

Definition withReview (iteration : option Z) (history : option (list ReviewEntry))
    (results : option (list TaskResult)) (n : DagNode) : DagNode :=
  {| n_task := n_task n; n_assignee := n_assignee n;
     n_dependsOn := n_dependsOn n; n_dependedBy := n_dependedBy n;
     n_status := n_status n; n_result := n_result n;
     n_iteration := iteration; n_reviewHistory := history;
     n_iterationResults := results |}.


Definition iterationOf (n : DagNode) : Z :=
  match n_iteration n with Some i => i | None => 0 end.

Definition historyOf (n : DagNode) : list ReviewEntry :=
  match n_reviewHistory n with Some h => h | None => [] end.

Definition iterationResultsOf (n : DagNode) : list TaskResult :=
  match n_iterationResults n with Some rs => rs | None => [] end.

(** [result.exitCode !== 0 || result.aborted]. *)
Definition runFailed (r : TaskResult) : bool :=
  negb (r_exitCode r =? 0) || r_aborted r.

(** [review.maxIterations ?? DEFAULT_MAX_ITERATIONS]. *)
Definition maxIterOf (node : DagNode) : Q :=
  match t_review (n_task node) with
  | Some rv =>
      match rv_maxIterations rv with
      | Some m => m
      | None => inject_Z DEFAULT_MAX_ITERATIONS
      end
  | None => inject_Z DEFAULT_MAX_ITERATIONS
  end.

Section Engine.

(** [String.prototype.toLowerCase] of the host. *)
Variable toLowerCase : jsstring -> jsstring.

(** The backward scan of [parseReviewDecision] over [lines[i - 1]],
    [lines[i - 2]], ...: blank lines are skipped, the first other line
    decides or ends the scan. *)
Fixpoint scanMarker (lines : list jsstring) (i : nat)
  : option (bool * jsstring) :=
  match i with
  | O => None
  | S i' =>
      let line := trim (nth i' lines []) in
      match line with
      | [] => scanMarker lines i'
      | _ :: _ =>
          if JS.eqb line (lit "APPROVED")
          then Some (true, trim (join_nl (slice lines 0 (Some (Z.of_nat i')))))
          else if JS.eqb line (lit "REVISION_NEEDED")
          then Some (false, trim (join_nl (slice lines 0 (Some (Z.of_nat i')))))
          else None
      end
  end.

(** [parseReviewDecision]: the pair is [(approved, feedback)]. *)
Definition parseReviewDecision (output : jsstring) : bool * jsstring :=
  let trimmed := trim output in
  let lines := split_nl trimmed in
  match scanMarker lines (length lines) with
  | Some decision => decision
  | None =>
      let lastChunk := toLowerCase (slice trimmed (-200) None) in
      if includes lastChunk (lit "approved")
         && negb (includes lastChunk (lit "not approved"))
         && negb (includes lastChunk (lit "revision"))
      then (true, trimmed)
      else (false, trimmed)
  end.

Variable W : World.

(** The [while] loop of [runReviewCycle].  [node] is the node object the
    closure holds; every mutation is stored back under its id.  The
    prompts handed to the reviewer and to the worker are not built: the
    runs are answered by [agentResult] whatever they are asked. *)
Fixpoint reviewLoop (fuel : nat) (maxIter : Q) (taskId : jsstring)
    (node : DagNode) (E : Engine) : Engine * ReviewExit :=
  if Qle_bool (inject_Z (iterationOf node)) maxIter then
    match fuel with
    | O => (E, ExitOutOfFuel)
    | S fuel' =>
        if signalAborted W (e_clock E) then (E, ExitAborted)
        else
          let workerOutput :=
            match n_result node with Some r => r_output r | None => [] end in
          let node1 := withStatus reviewing node in
          let E1 := emitProgress (store taskId node1 E) in
          let reviewResult := agentResult W (e_clock E1) in
          let node2 :=
            withReview (n_iteration node1) (n_reviewHistory node1)
              (Some (iterationResultsOf node1 ++ [reviewResult])) node1 in
          let E2 := store taskId node2 (pushResult reviewResult (tick 1 E1)) in
          if runFailed reviewResult then
            let node3 := withStatus completed node2 in
            (emitProgress (store taskId node3 E2), ExitReviewerFailed)
          else
            let decision := parseReviewDecision (r_output reviewResult) in
            let entry :=
              {| h_iteration := iterationOf node2;
                 h_workerOutput := workerOutput;
                 h_reviewerOutput := r_output reviewResult;
                 h_approved := fst decision |} in
            let node3 :=
              withReview (n_iteration node2) (Some (historyOf node2 ++ [entry]))
                (n_iterationResults node2) node2 in
            if fst decision || Qle_bool maxIter (inject_Z (iterationOf node3)) then
              let node4 := withStatus completed node3 in
              (emitProgress (store taskId node4 E2), ExitDecided)
            else
              let node4 :=
                withStatus revising
                  (withReview (Some (iterationOf node3 + 1))
                     (n_reviewHistory node3) (n_iterationResults node3) node3) in
              let E4 := emitProgress (store taskId node4 E2) in
              let revisionResult := agentResult W (e_clock E4) in
              let node5 :=
                withReview (n_iteration node4) (n_reviewHistory node4)
                  (Some (iterationResultsOf node4 ++ [revisionResult])) node4 in
              let E5 := store taskId node5 (pushResult revisionResult (tick 1 E4)) in
              if runFailed revisionResult then
                let node6 := withResult revisionResult (withStatus failed node5) in
                (emitProgress (store taskId node6 E5), ExitRevisionFailed)
              else
                let node6 := withResult revisionResult node5 in
                reviewLoop fuel' maxIter taskId node6 (store taskId node6 E5)
    end
  else (E, ExitLoopCondition).

(** [runReviewCycle], with the way the function was left.  The loop body
    either returns or adds one to [node.iteration], and the loop test
    fails once the iteration exceeds the integer part of [maxIter]; the
    fuel covers the turns up to there. *)
Definition runReviewCycle (node : DagNode) (E : Engine)
  : Engine * ReviewExit :=
  let maxIter := maxIterOf node in
  let node0 :=
    withReview
      (match n_iteration node with
       | Some i => if i =? 0 then Some 1 else Some i
       | None => Some 1
       end)
      (Some (historyOf node)) (Some (iterationResultsOf node)) node in
  reviewLoop (Z.to_nat (Qfloor maxIter - iterationOf node0 + 1)) maxIter
             (t_id (n_task node)) node0
             (store (t_id (n_task node)) node0 E).

(** The body of [for (const { taskId, result } of batchResults)]. *)
Definition processResult (E : Engine) (entry : jsstring * TaskResult)
  : Engine :=
  let '(taskId, result) := entry in
  match mapGet (e_nodes E) taskId with
  | None => E
  | Some found =>
      let node := withResult result found in
      let E1 := pushResult result (store taskId node E) in
      if runFailed result then
        store taskId (withStatus failed node) E1
      else if t_requiresApproval (n_task node) then
        store taskId (withStatus awaiting_approval node) E1
      else
        match t_review (n_task node) with
        | Some _ =>
            let node' := withReview (Some 1) (Some []) (Some [result]) node in
            fst (runReviewCycle node' (store taskId node' E1))
        | None => store taskId (withStatus completed node) E1
        end
  end.

Variable maxConcurrency : Q.

Definition markRunning (E : Engine) (node : DagNode) : Engine :=
  setNodes (modify (e_nodes E) (t_id (n_task node)) (withStatus running)) E.

(** From [const readyTasks = getReadyTasks(nodes)] to the end of the loop
    body.  [None] is falling back to the loop test, [Some a] leaving the
    loop towards the final [return] with [aborted = a]. *)
Definition runBatch (E : Engine) : Engine * option bool :=
  let readyTasks := getReadyTasks (e_nodes E) in
  match readyTasks with
  | [] => (E, Some (signalAborted W (e_clock E)))
  | _ :: _ =>
      let batch := slice readyTasks 0 (Some (toInteger maxConcurrency)) in
      let E1 := emitProgress (fold_left markRunning batch E) in
      let batchResults :=
        map (fun '(k, node) =>
               (t_id (n_task node), agentResult W (e_clock E1 + k)%nat))
            (combine (seq 0 (length batch)) batch) in
      let E2 := tick (length batch) E1 in
      let E3 := fold_left processResult batchResults E2 in
      (emitProgress (setNodes (updateReadyState (e_nodes E3)) E3), None)
  end.







End Engine.

(** ** The dispatcher ([index.ts]) *)

(** [String.prototype.replace] with a string replacement: the expansion of
    the [$] patterns of [GetSubstitution] for a regular expression without
    capture groups ([$$], [$&], [$`], [$'], everything else verbatim). *)
Fixpoint getSubstitution (matched before after replacement : jsstring)
  : jsstring :=
  match replacement with
  | [] => []
  | c :: rest =>
      if (c =? 36)%N then
        match rest with
        | d :: rest' =>
            if (d =? 36)%N then 36%N :: getSubstitution matched before after rest'
            else if (d =? 38)%N then matched ++ getSubstitution matched before after rest'
            else if (d =? 96)%N then before ++ getSubstitution matched before after rest'
            else if (d =? 39)%N then after ++ getSubstitution matched before after rest'
            else c :: getSubstitution matched before after rest
        | [] => [c]
        end
      else c :: getSubstitution matched before after rest
  end.

(** [s.replace(/pat/g, replacement)] for a literal, non-empty [pat]: the
    matches are found left to right without overlap; [before] is the part
    of the subject already passed, [skip] the rest of a match in progress. *)
Fixpoint replaceFrom (pat replacement before : jsstring) (skip : nat)
    (s : jsstring) : jsstring :=
  match s with
  | [] => []
  | c :: rest =>
      match skip with
      | S skip' => replaceFrom pat replacement (before ++ [c]) skip' rest
      | O =>
          if startsWith s pat
          then getSubstitution pat before (skipn (length pat) s) replacement
               ++ replaceFrom pat replacement (before ++ [c]) (length pat - 1) rest
          else c :: replaceFrom pat replacement (before ++ [c]) 0 rest
      end
  end.

Definition replaceAll (pat replacement s : jsstring) : jsstring :=
  replaceFrom pat replacement [] 0 s.

(** The class [[\w-]] of [generateTaskId]. *)
Definition isIdUnit (c : N) : bool :=
  ((48 <=? c) && (c <=? 57) || (65 <=? c) && (c <=? 90)
   || (97 <=? c) && (c <=? 122) || (c =? 95) || (c =? 45))%N.

Definition generateTaskId (index : Z) (name : option jsstring) : jsstring :=
  let suffix :=
    match truthy name with
    | Some n => slice (map (fun c => if isIdUnit c then c else 95%N) n) 0 (Some 20)
    | None => lit "task_" ++ ofZ index
    end in
  ofZ index ++ lit "-" ++ suffix.

Record AgentConfig := mkAgentConfig {
  a_name : jsstring;
  a_model : option jsstring;
  a_tools : option (list jsstring);
  a_systemPrompt : option jsstring;
  a_thinking : option jsstring
}.

Record ChainStep := mkChainStep {
  cs_task : jsstring;
  cs_agent : option jsstring;
  cs_provider : option jsstring;
  cs_model : option jsstring;
  cs_tools : option (list jsstring);
  cs_systemPrompt : option jsstring;
  cs_thinking : option jsstring
}.

Record TaskItem := mkTaskItem {
  ti_task : jsstring;
  ti_name : option jsstring;
  ti_agent : option jsstring;
  ti_model : option jsstring
}.

Record RaceConfig := mkRaceConfig {
  rc_task : jsstring;
  rc_models : list jsstring
}.

Record TeamMemberDef := mkTeamMemberDef {
  md_role : jsstring;
  md_agent : option jsstring;
  md_model : option jsstring;
  md_task : option jsstring
}.

Record TeamConfig := mkTeamConfig {
  tc_objective : jsstring;
  tc_members : list TeamMemberDef;
  tc_tasks : option (list TeamTask);
  tc_maxConcurrency : option Q
}.

(** [ParallelParams]; an absent property is [None]. *)
Record ParallelParams := mkParallelParams {
  p_agentScope : option jsstring;
  p_task : option jsstring;
  p_agent : option jsstring;
  p_provider : option jsstring;
  p_model : option jsstring;
  p_tools : option (list jsstring);
  p_systemPrompt : option jsstring;
  p_thinking : option jsstring;
  p_tasks : option (list TaskItem);
  p_maxConcurrency : option Q;
  p_chain : option (list ChainStep);
  p_race : option RaceConfig;
  p_team : option TeamConfig
}.

Inductive Mode := single | parallel | chain | race | team.

(** The returned object: [content[0].text], [details] (without the usage
    totals) and [isError]. *)
Record Response := mkResponse {
  text : jsstring;
  d_mode : Mode;
  d_results : list TaskResult;
  d_totalDurationMs : Z;
  isError : bool
}.

Record Overrides := mkOverrides {
  v_provider : option jsstring;
  v_model : option jsstring;
  v_tools : option (list jsstring);
  v_systemPrompt : option jsstring;
  v_thinking : option jsstring;
  v_agentConfig : option AgentConfig
}.

(** [a ?? b]. *)
Definition nullish {A} (a b : option A) : option A :=
  match a with Some _ => a | None => b end.

(** [x || d] on numbers: absent and zero are both falsy. *)
Definition numberOr (x : option Q) (d : Q) : Q :=
  match x with
  | Some v => if Qeq_bool v 0 then d else v
  | None => d
  end.

Definition isDigit (c : N) : bool := ((48 <=? c) && (c <=? 57))%N.

Fixpoint skipDigits (s : jsstring) : jsstring :=
  match s with
  | c :: rest => if isDigit c then skipDigits rest else s
  | [] => []
  end.

(** A match of [/\{(task|result)_(\d+)\}/] at the head of [s]. *)
Definition crossRefAt (s : jsstring) : bool :=
  let digitsThenBrace (rest : jsstring) :=
    match rest with
    | d :: _ =>
        isDigit d &&
        match skipDigits rest with
        | c :: _ => (c =? 125)%N
        | [] => false
        end
    | [] => false
    end in
  if startsWith s (lit "{task_") then digitsThenBrace (skipn 6 s)
  else if startsWith s (lit "{result_") then digitsThenBrace (skipn 8 s)
  else false.

(** [crossRefPattern.test(s)]. *)
Fixpoint hasCrossRef (s : jsstring) : bool :=
  crossRefAt s ||
  match s with
  | [] => false
  | _ :: rest => hasCrossRef rest
  end.

(** [Math.min(params.maxConcurrency || DEFAULT_CONCURRENCY, MAX_CONCURRENCY,
    tasks.length)] of parallel mode. *)
Definition parallelMaxConcurrency (params : ParallelParams)
    (tasks : list TaskItem) : Q :=
  Qmin (Qmin (numberOr (p_maxConcurrency params) (inject_Z DEFAULT_CONCURRENCY))
             (inject_Z MAX_CONCURRENCY))
       (inject_Z (Z.of_nat (length tasks))).

(** The limit parallel mode hands to [mapWithConcurrencyLimit]:
    [hasCrossRefs ? 1 : maxConcurrency]. *)
Definition poolLimit (params : ParallelParams) (tasks : list TaskItem) : Q :=
  if existsb (fun t => hasCrossRef (ti_task t)) tasks then 1%Q
  else parallelMaxConcurrency params tasks.

(** [Math.min(teamMaxConcurrency || DEFAULT_CONCURRENCY, MAX_CONCURRENCY)]
    of team mode, handed to [executeDag] as [maxConcurrency]. *)
Definition teamMaxConc (team : TeamConfig) : Q :=
  Qmin (numberOr (tc_maxConcurrency team) (inject_Z DEFAULT_CONCURRENCY))
       (inject_Z MAX_CONCURRENCY).

(** [result.error || result.output || "(no output)"]. *)
Definition chainErrorMsg (result : TaskResult) : jsstring :=
  orElse (match r_error result with Some e => e | None => [] end)
         (orElse (r_output result) (lit "(no output)")).

(** [lastResult?.output || "(no output)"]. *)
Definition lastOutputText (results : list TaskResult) : jsstring :=
  orElse (match last results with
          | Some lastResult => r_output lastResult
          | None => []
          end) (lit "(no output)").

Section Dispatcher.

(** [agents.ts] is not part of the sources at hand: its two functions are
    parameters, and so is the list [discoverAgents] returns. *)
Variable findAgent : list AgentConfig -> jsstring -> option AgentConfig.
Variable formatAgentList : list AgentConfig -> Z -> jsstring.
Variable agents : list AgentConfig.

(** [runAgent] as the dispatcher sees it: the result of the [k]-th call,
    given its options. *)
Variable spawn : nat -> ExecutorOptions -> TaskResult.

(** [Date.now() - startTime] when the details are made. *)
Variable elapsedMs : Z.

(** The bodies of race, parallel and team mode rest on [parallel.ts]
    ([raceWithAbort], [mapWithConcurrencyLimit]) and on the engine above;
    here they are taken with the concurrency limit they are given. *)
Variable raceMode : ParallelParams -> RaceConfig -> Response * list ExecutorOptions.
Variable parallelMode :
  ParallelParams -> list TaskItem -> Q -> Response * list ExecutorOptions.
Variable teamMode :
  ParallelParams -> TeamConfig -> Q -> Response * list ExecutorOptions.

Definition resolveAgentSettings (agentName : option jsstring)
    (overrides : Overrides) : Overrides :=
  match truthy agentName with
  | None => overrides
  | Some name =>
      match findAgent agents name with
      | None => overrides
      | Some agentConfig =>
          {| v_provider := v_provider overrides;
             v_model := nullish (v_model overrides) (a_model agentConfig);
             v_tools := nullish (v_tools overrides) (a_tools agentConfig);
             v_systemPrompt :=
               nullish (v_systemPrompt overrides) (a_systemPrompt agentConfig);
             v_thinking := nullish (v_thinking overrides) (a_thinking agentConfig);
             v_agentConfig := Some agentConfig |}
      end
  end.

Definition hasChain (params : ParallelParams) : bool :=
  match p_chain params with Some (_ :: _) => true | _ => false end.

Definition hasRace (params : ParallelParams) : bool :=
  match p_race params with Some _ => true | None => false end.

Definition hasTasks (params : ParallelParams) : bool :=
  match p_tasks params with Some (_ :: _) => true | _ => false end.

Definition hasSingle (params : ParallelParams) : bool :=
  match p_task params with
  | Some task => match trim task with [] => false | _ :: _ => true end
  | None => false
  end.

Definition hasTeam (params : ParallelParams) : bool :=
  match p_team params with Some _ => true | None => false end.

Definition modeCount (params : ParallelParams) : Z :=
  Z.b2z (hasChain params) + Z.b2z (hasRace params) + Z.b2z (hasTasks params)
  + Z.b2z (hasSingle params) + Z.b2z (hasTeam params).

Definition agentScopeOf (params : ParallelParams) : jsstring :=
  match p_agentScope params with Some s => s | None => lit "user" end.

Definition availableAgents (params : ParallelParams) : jsstring :=
  lit (String "010" (String "010" "Available agents ["))
  ++ agentScopeOf params ++ lit "]: " ++ formatAgentList agents 5.

Definition makeDetails (mode : Mode) (results : list TaskResult)
    (text : jsstring) (isError : bool) : Response :=
  mkResponse text mode results elapsedMs isError.

Definition invalidParameters (params : ParallelParams) : Response :=
  mkResponse
    (lit "Invalid parameters. Provide exactly one mode: task (single), tasks (parallel), chain, race, or team."
     ++ availableAgents params)
    single [] 0 false.

Definition singleMode (params : ParallelParams) (task : jsstring)
  : Response * list ExecutorOptions :=
  let resolved :=
    resolveAgentSettings (p_agent params)
      (mkOverrides (p_provider params) (p_model params) (p_tools params)
                   (p_systemPrompt params) (p_thinking params) None) in
  match truthy (p_agent params), v_agentConfig resolved with
  | Some agent, None =>
      (makeDetails single []
         (lit "Unknown agent: " ++ agent ++ availableAgents params) false, [])
  | _, _ =>
      let options :=
        {| o_task := task; o_provider := v_provider resolved;
           o_model := v_model resolved; o_tools := v_tools resolved;
           o_systemPrompt := v_systemPrompt resolved; o_context := None;
           o_thinking := v_thinking resolved; o_id := lit "single";
           o_name := Some (orElse (match v_agentConfig resolved with
                                   | Some a => a_name a
                                   | None => []
                                   end) (lit "single"));
           o_step := None |} in
      let result := spawn 0 options in
      (makeDetails single [result]
         (orElse (r_output result) (lit "(no output)")) false, [options])
  end.

Definition joinComma (xs : list jsstring) : jsstring :=
  match xs with
  | [] => []
  | x :: rest => fold_left (fun acc y => acc ++ lit ", " ++ y) rest x
  end.

(** The agents named by the steps that [findAgent] does not know. *)
Definition missingChainAgents (steps : list ChainStep) : list jsstring :=
  flat_map (fun step =>
              match truthy (cs_agent step) with
              | Some agent =>
                  match findAgent agents agent with
                  | Some _ => []
                  | None => [agent]
                  end
              | None => []
              end) steps.

Definition stepOptions (i : nat) (step : ChainStep) (previousOutput : jsstring)
  : ExecutorOptions :=
  let taskWithContext := replaceAll (lit "{previous}") previousOutput (cs_task step) in
  let number := Z.of_nat i + 1 in
  let stepId := generateTaskId number (Some (lit "step_" ++ ofZ number)) in
  let resolved :=
    resolveAgentSettings (cs_agent step)
      (mkOverrides (cs_provider step) (cs_model step) (cs_tools step)
                   (cs_systemPrompt step) (cs_thinking step) None) in
  let stepName :=
    orElse (match v_agentConfig resolved with Some a => a_name a | None => [] end)
           (lit "Step " ++ ofZ number) in
  {| o_task := taskWithContext; o_provider := v_provider resolved;
     o_model := v_model resolved; o_tools := v_tools resolved;
     o_systemPrompt := v_systemPrompt resolved; o_context := None;
     o_thinking := v_thinking resolved; o_id := stepId;
     o_name := Some stepName; o_step := Some number |}.

(** The [for] loop of chain mode from step [i] on, and the return after
    it.  [calls] are the options of the runs started so far. *)
Fixpoint chainLoop (steps : list ChainStep) (i : nat)
    (previousOutput : jsstring) (results : list TaskResult)
    (calls : list ExecutorOptions) : Response * list ExecutorOptions :=
  match steps with
  | [] => (makeDetails chain results (lastOutputText results) false, calls)
  | step :: rest =>
      let options := stepOptions i step previousOutput in
      let result := spawn (length calls) options in
      let results' := results ++ [result] in
      if runFailed result then
        (makeDetails chain results'
           (lit "Chain stopped at step " ++ ofZ (Z.of_nat i + 1) ++ lit ": "
            ++ chainErrorMsg result) true,
         calls ++ [options])
      else chainLoop rest (S i) (r_output result) results' (calls ++ [options])
  end.

Definition chainMode (params : ParallelParams) (steps : list ChainStep)
  : Response * list ExecutorOptions :=
  let missingAgents := missingChainAgents steps in
  if (0 <? length missingAgents)%nat then
    (makeDetails chain []
       (lit "Unknown agent(s) in chain: " ++ joinComma missingAgents
        ++ availableAgents params) false, [])
  else chainLoop steps 0 [] [] [].

(** [execute]: the response and the options of every [runAgent] call. *)
Definition execute (params : ParallelParams)
  : Response * list ExecutorOptions :=
  if negb (modeCount params =? 1) then (invalidParameters params, [])
  else
    match hasSingle params, truthy (p_task params) with
    | true, Some task => singleMode params task
    | _, _ =>
    match hasChain params, p_chain params with
    | true, Some steps => chainMode params steps
    | _, _ =>
    match hasRace params, p_race params with
    | true, Some config => raceMode params config
    | _, _ =>
    match hasTasks params, p_tasks params with
    | true, Some tasks => parallelMode params tasks (poolLimit params tasks)
    | _, _ =>
    match hasTeam params, p_team params with
    | true, Some config => teamMode params config (teamMaxConc config)
    | _, _ => (makeDetails single [] (lit "Invalid parameters") false, [])
    end end end end end.

End Dispatcher.

(** ** Notions used by the statements *)

Definition noNL (l : jsstring) : Prop := Forall (fun c => c <> NL) l.

(** Number of lines of a string: [s.split("\n").length]. *)
Definition lineCount (s : jsstring) : nat := length (split_nl s).

(** The last [n] lines of an array of lines. *)
Definition lastLines (n : nat) (lines : list jsstring) : list jsstring :=
  skipn (length lines - n) lines.

(** The last [n] code units of a string. *)
Definition lastUnits (n : nat) (s : jsstring) : jsstring :=
  skipn (length s - n) s.

(** The length a string of [len] code units is left with after its first
    half, [len / 2] units rounded down, has been dropped [k] times. *)
Fixpoint halvedLength (k : nat) (len : nat) : nat :=
  match k with
  | O => len
  | S k' => halvedLength k' (len - Nat.div len 2)
  end.

(** The last part of type "text" of a message content. *)
Fixpoint lastText (parts : list ContentPart) : option jsstring :=
  match parts with
  | [] => None
  | TextPart t :: rest =>
      match lastText rest with
      | Some t' => Some t'
      | None => Some t
      end
  | _ :: rest => lastText rest
  end.

(** The final output as the specification words it: scanning from the end
    for an assistant message with a text part, the last text part of it. *)
Fixpoint claimedScan (fromLast : list Message) : jsstring :=
  match fromLast with
  | [] => []
  | msg :: earlier =>
      if isAssistant msg then
        match lastText (m_content msg) with
        | Some t => t
        | None => claimedScan earlier
        end
      else claimedScan earlier
  end.

Definition claimedFinalOutput (messages : list Message) : jsstring :=
  claimedScan (rev messages).

Definition hasTextPart (parts : list ContentPart) : Prop :=
  exists t, In (TextPart t) parts.

(** The event is the end of an assistant message with
    [stopReason == "error"] and the non-empty [errorMessage] [t]. *)
Definition signalsApiError (e : Event) (t : jsstring) : Prop :=
  exists m, e = MessageEnd (Some m) /\ m_role m = assistant
            /\ m_stopReason m = Some (lit "error")
            /\ m_errorMessage m = Some t /\ t <> [].







Definition supplied {A} (x : option A) : bool :=
  match x with Some _ => true | None => false end.

(** The number of mode properties present in the parameter object. *)
Definition suppliedCount (params : ParallelParams) : Z :=
  Z.b2z (supplied (p_task params)) + Z.b2z (supplied (p_tasks params))
  + Z.b2z (supplied (p_chain params)) + Z.b2z (supplied (p_race params))
  + Z.b2z (supplied (p_team params)).

(** Every occurrence of [pat] replaced by [replacement], taken verbatim. *)
Fixpoint substituteFrom (pat replacement : jsstring) (skip : nat)
    (s : jsstring) : jsstring :=
  match s with
  | [] => []
  | c :: rest =>
      match skip with
      | S skip' => substituteFrom pat replacement skip' rest
      | O =>
          if startsWith s pat
          then replacement ++ substituteFrom pat replacement (length pat - 1) rest
          else c :: substituteFrom pat replacement 0 rest
      end
  end.

Definition substituteAll (pat replacement s : jsstring) : jsstring :=
  substituteFrom pat replacement 0 s.

(** The replacement holds one of [$$], [$&], [$`], [$']. *)
Fixpoint hasDollarPattern (s : jsstring) : bool :=
  match s with
  | [] => false
  | c :: rest =>
      ((c =? 36)%N &&
       match rest with
       | d :: _ => ((d =? 36) || (d =? 38) || (d =? 96) || (d =? 39))%N
       | [] => false
       end)
      || hasDollarPattern rest
  end.

(** The output of the step before step [i] (0-based), empty for the first. *)
Definition previousOutput (results : list TaskResult) (i : nat) : jsstring :=
  match i with
  | O => []
  | S j => match results !! j with Some r => r_output r | None => [] end
  end.

(** A line that [trim] empties. *)
Definition blank (line : jsstring) : Prop := trim line = [].

(** The test on the last 200 code units of the trimmed review: it holds
    "approved" and neither "not approved" nor "revision". *)
Definition tailSoundsApproved (toLowerCase : jsstring -> jsstring)
    (trimmed : jsstring) : bool :=
  includes (toLowerCase (slice trimmed (-200) None)) (lit "approved")
  && negb (includes (toLowerCase (slice trimmed (-200) None)) (lit "not approved"))
  && negb (includes (toLowerCase (slice trimmed (-200) None)) (lit "revision")).












(** Only the node under [id] differs between the two engines. *)
Definition framed (id : jsstring) (E E' : Engine) : Prop :=
  forall id', id' <> id -> mapGet (e_nodes E') id' = mapGet (e_nodes E) id'.

(** The number of entries of the in-degree map that are still positive. *)
Definition positives (inDegree : list (jsstring * Z)) : nat :=
  length (List.filter (fun entry => snd entry >? 0) inDegree).

(** ** Sample inputs *)

Definition sampleOptions : ExecutorOptions :=
  mkExecutorOptions (lit "t") None None None None None None (lit "single")
                    None None.

(** A child that exits with code 0 after an in-band API error. *)
Definition apiErrorChild : ChildRun :=
  mkChildRun
    [MessageEnd (Some (mkMessage assistant [TextPart (lit "hi")] None None));
     MessageEnd (Some (mkMessage assistant [] (Some (lit "error"))
                                 (Some (lit "401 unauthorized"))));
     ToolExecutionEnd]
    0 [] false.

Definition noParams : ParallelParams :=
  mkParallelParams None None None None None None None None None None None
                   None None.





Definition plainStep (task : string) : ChainStep :=
  mkChainStep (lit task) None None None None None None.

(** A step handed to the named agent. *)
Definition agentStep (agent task : string) : ChainStep :=
  mkChainStep (lit task) (Some (lit agent)) None None None None None.

(** A blank [task] next to a chain of one step. *)
Definition blankTaskWithChain : ParallelParams :=
  mkParallelParams None (Some []) None None None None None None None None
                   (Some [plainStep "say hi"]) None None.

Definition withChain (steps : list ChainStep) : ParallelParams :=
  mkParallelParams None None None None None None None None None None
                   (Some steps) None None.

(** An environment without agent definitions, whose runs all succeed with
    the output [out]; the modes not under study are never entered. *)
Definition noAgent (_ : list AgentConfig) (_ : jsstring) : option AgentConfig := None.
Definition noAgentList (_ : list AgentConfig) (_ : Z) : jsstring := lit "none".
Definition succeedWith (out : jsstring) (_ : nat) (options : ExecutorOptions)
  : TaskResult :=
  mkTaskResult (o_id options) (o_name options) (o_task options)
               (o_model options) 0 out [] false None false (o_step options).
(** An agent that succeeds with its prompt as output. *)
Definition echoAgent (_ : nat) (options : ExecutorOptions) : TaskResult :=
  mkTaskResult (o_id options) (o_name options) (o_task options)
               (o_model options) 0 (o_task options) [] false None false
               (o_step options).

Definition idle {A B} (_ : A) (_ : B) : Response * list ExecutorOptions :=
  (mkResponse [] single [] 0 false, []).
Definition idle3 {A B C} (_ : A) (_ : B) (_ : C)
  : Response * list ExecutorOptions :=
  (mkResponse [] single [] 0 false, []).



Definition sampleExecute (out : jsstring) (params : ParallelParams)
  : Response * list ExecutorOptions :=
  execute noAgent noAgentList [] (succeedWith out) 0 idle idle3 idle3 params.

(** A review that ends with an indented marker line. *)
Definition indentedMarker : jsstring :=
  lit "revision ok" ++ [NL] ++ lit " APPROVED".

Definition okResult (out : string) : TaskResult :=
  mkTaskResult [] None [] None 0 (lit out) [] false None false None.


Definition taskOf (id : string) (depends : list jsstring)
    (review : option ReviewConfig) : TeamTask :=
  mkTeamTask (lit id) (lit "do it") None (Some depends) false review.


(** Every run succeeds with the output "ok"; nothing aborts. *)
Definition allQuiet : World :=
  mkWorld (fun _ => okResult "ok") None (fun _ => false).








(** Three independent tasks: [buildDag] makes them all ready. *)
Definition threeReady : NodeMap :=
  match buildDag [taskOf "p" [] None; taskOf "q" [] None; taskOf "r" [] None]
                 [] with
  | Returned nodes => nodes
  | _ => []
  end.


(** * Properties *)

(** ** Strings *)

Lemma split_nl_cons_shape s : exists l ls, split_nl s = l :: ls.
Proof.
  induction s as [|c r IH]; simpl; [eauto|].
  destruct (c =? NL)%N; [eauto|].
  destruct IH as (l & ls & ->). eauto.
Qed.

Lemma join_nl_cons2 l l' ls :
  join_nl (l :: l' :: ls) = l ++ NL :: join_nl (l' :: ls).
Proof. reflexivity. Qed.

Lemma join_split s : join_nl (split_nl s) = s.
Proof.
  induction s as [|c r IH]; [reflexivity|].
  simpl. destruct (split_nl_cons_shape r) as (l & ls & Hr).
  rewrite Hr in *.
  destruct (N.eqb_spec c NL) as [->|Hc].
  - rewrite join_nl_cons2, IH. reflexivity.
  - destruct ls as [|l' ls].
    + simpl in *. now rewrite IH.
    + rewrite join_nl_cons2 in *. cbn [app]. now rewrite IH.
Qed.

Lemma split_noNL s : Forall noNL (split_nl s).
Proof.
  induction s as [|c r IH]; simpl.
  - repeat constructor.
  - destruct (N.eqb_spec c NL) as [->|Hc].
    + constructor; [constructor|exact IH].
    + destruct (split_nl r) as [|l ls]; [repeat constructor; assumption|].
      inversion IH; subst. constructor; [constructor; assumption|assumption].
Qed.

Lemma split_nl_app_noNL l r :
  noNL l -> split_nl (l ++ NL :: r) = l :: split_nl r.
Proof.
  induction 1 as [|c l Hc _ IH]; simpl.
  - reflexivity.
  - destruct (N.eqb_spec c NL); [contradiction|]. now rewrite IH.
Qed.

Lemma split_nl_noNL l : noNL l -> split_nl l = [l].
Proof.
  induction 1 as [|c l Hc _ IH]; simpl; [reflexivity|].
  destruct (N.eqb_spec c NL); [contradiction|]. now rewrite IH.
Qed.

Lemma split_join ls : ls <> [] -> Forall noNL ls -> split_nl (join_nl ls) = ls.
Proof.
  intros Hne H. induction H as [|l ls Hl Hls IH]; [contradiction|].
  destruct ls as [|l' ls'].
  - simpl. now apply split_nl_noNL.
  - rewrite join_nl_cons2, split_nl_app_noNL by assumption.
    f_equal. apply IH. discriminate.
Qed.

Lemma lineCount_cons c s : (lineCount s <= lineCount (c :: s))%nat.
Proof.
  unfold lineCount. simpl. destruct (c =? NL)%N; simpl; [lia|].
  destruct (split_nl s); simpl; lia.
Qed.

Lemma lineCount_skipn k s : (lineCount (skipn k s) <= lineCount s)%nat.
Proof.
  revert s. induction k as [|k IH]; intros s; [reflexivity|].
  destruct s as [|c s]; [reflexivity|]. cbn [skipn].
  etransitivity; [apply IH|apply lineCount_cons].
Qed.

Lemma join_nl_length_cons l ls :
  ls <> [] -> length (join_nl (l :: ls)) = (length l + 1 + length (join_nl ls))%nat.
Proof.
  destruct ls; [contradiction|]. intros _. rewrite join_nl_cons2.
  rewrite length_app. simpl. lia.
Qed.

Lemma join_skipn_shorter n ls :
  (0 < n < length ls)%nat ->
  (length (join_nl (skipn n ls)) < length (join_nl ls))%nat.
Proof.
  revert ls. induction n as [|n IH]; intros ls Hn; [lia|].
  destruct ls as [|l ls]; [simpl in Hn; lia|].
  cbn [skipn]. simpl in Hn.
  assert (Hls : ls <> []) by (destruct ls; [simpl in Hn; lia|discriminate]).
  rewrite join_nl_length_cons by assumption.
  destruct n as [|n']; [rewrite skipn_O; lia|].
  specialize (IH ls ltac:(lia)). lia.
Qed.

Lemma byteLength_bounds_aux s :
  (0 <= byteLength s <= 3 * Z.of_nat (length s))
  /\ forall c, 0 <= byteLength (c :: s) <= 3 * Z.of_nat (length (c :: s)).
Proof.
  induction s as [|d r [IH1 IH2]].
  - split; [simpl; lia|]. intros c. simpl.
    destruct (c <? 128)%N; [lia|]. destruct (c <? 2048)%N; [lia|].
    destruct (isHighSurrogate c); lia.
  - split; [apply IH2|]. intros c.
    specialize (IH2 d).
    change (byteLength (c :: d :: r)) with
      (if (c <? 128)%N then 1 + byteLength (d :: r)
       else if (c <? 2048)%N then 2 + byteLength (d :: r)
       else if isHighSurrogate c then
         if isLowSurrogate d then 4 + byteLength r else 3 + byteLength (d :: r)
       else 3 + byteLength (d :: r)).
    cbn [length] in *.
    destruct (c <? 128)%N; [lia|]. destruct (c <? 2048)%N; [lia|].
    destruct (isHighSurrogate c); [|lia].
    destruct (isLowSurrogate d); lia.
Qed.

Lemma byteLength_bounds s : 0 <= byteLength s <= 3 * Z.of_nat (length s).
Proof. apply byteLength_bounds_aux. Qed.

(** ** [truncateOutput] *)

Lemma dropFirstHalf_length s :
  length (dropFirstHalf s) = (length s - Nat.div (length s) 2)%nat.
Proof. unfold dropFirstHalf. apply length_skipn. Qed.

Lemma dropFirstHalf_shorter s :
  (2 <= length s)%nat -> (length (dropFirstHalf s) < length s)%nat.
Proof.
  intros H. rewrite dropFirstHalf_length.
  assert (1 <= Nat.div (length s) 2)%nat.
  { change 1%nat with (Nat.div 2 2). apply Nat.Div0.div_le_mono. exact H. }
  lia.
Qed.

Lemma iter_dropFirstHalf_suffix k s :
  exists n, Nat.iter k dropFirstHalf s = skipn n s.
Proof.
  induction k as [|k [n IH]]; [exists 0%nat; reflexivity|].
  simpl. rewrite IH. unfold dropFirstHalf.
  rewrite skipn_skipn. eauto.
Qed.

Lemma iter_dropFirstHalf_length k s :
  (length (Nat.iter k dropFirstHalf s) <= length s)%nat.
Proof.
  destruct (iter_dropFirstHalf_suffix k s) as [n ->].
  rewrite length_skipn. lia.
Qed.

Lemma iter_dropFirstHalf_comm k s :
  Nat.iter k dropFirstHalf (dropFirstHalf s) = Nat.iter (S k) dropFirstHalf s.
Proof.
  symmetry. apply Nat.iter_succ_r.
Qed.

(** With a byte cap of at least three, the loop stops within [length s]
    turns: it returns the first iterate of the halving that fits. *)
Lemma byteLoop_returns fuel maxBytes s :
  3 <= maxBytes -> (length s <= fuel)%nat ->
  exists k,
    byteLoop fuel maxBytes s = Some (Nat.iter k dropFirstHalf s)
    /\ byteLength (Nat.iter k dropFirstHalf s) <= maxBytes
    /\ (forall j, (j < k)%nat ->
          byteLength (Nat.iter j dropFirstHalf s) > maxBytes)
    /\ (byteLength s > maxBytes ->
          (length (Nat.iter k dropFirstHalf s) < length s)%nat).
Proof.
  intros Hmax. revert s.
  induction fuel as [|fuel IH]; intros s Hlen.
  - destruct s; [|simpl in Hlen; lia].
    exists 0%nat. cbn [Nat.iter byteLoop byteLength length].
    change (0 <? 0)%nat with false. rewrite andb_false_r.
    repeat split; intros; simpl; try reflexivity; lia.
  - cbn [byteLoop].
    destruct (Z.gtb_spec (byteLength s) maxBytes) as [Hover|Hfit].
    + pose proof (byteLength_bounds s) as Hb.
      assert (Hs : (2 <= length s)%nat) by lia.
      replace (0 <? length s)%nat with true
        by (symmetry; apply Nat.ltb_lt; lia).
      cbn [andb].
      pose proof (dropFirstHalf_shorter s Hs) as Hsh.
      destruct (IH (dropFirstHalf s) ltac:(lia)) as (k & Hrun & Hfit & Hbefore & Hless).
      exists (S k). rewrite <- iter_dropFirstHalf_comm.
      repeat split; try assumption.
      * intros j Hj. destruct j as [|j]; [cbn; lia|].
        rewrite <- iter_dropFirstHalf_comm. apply Hbefore. lia.
      * intros _. pose proof (iter_dropFirstHalf_length k (dropFirstHalf s)). lia.
    + cbn [andb]. exists 0%nat.
      repeat split; intros; simpl; try reflexivity; lia.
Qed.

Lemma capLines_lastLines lines :
  capLines MAX_OUTPUT_LINES lines = lastLines 2000 lines.
Proof.
  unfold capLines, lastLines, MAX_OUTPUT_LINES.
  destruct (Z.gtb_spec (Z.of_nat (length lines)) 2000) as [H|H].
  - f_equal. lia.
  - replace (length lines - 2000)%nat with 0%nat by lia. reflexivity.
Qed.

Lemma lastLines_length n lines :
  length (lastLines n lines) = Nat.min n (length lines).
Proof. unfold lastLines. rewrite length_skipn. lia. Qed.

Lemma lastLines_noNL n s : Forall noNL (lastLines n (split_nl s)).
Proof. unfold lastLines. apply Forall_drop, split_noNL. Qed.

Lemma lastLines_nonempty s : lastLines 2000 (split_nl s) <> [].
Proof.
  intros H. apply (f_equal (@length _)) in H.
  rewrite lastLines_length in H.
  destruct (split_nl_cons_shape s) as (l & ls & Hs). rewrite Hs in H.
  simpl in H. lia.
Qed.

(** The line cap: the kept text is no longer than the input, it is the
    input when the cap does not apply and strictly shorter when it does. *)
Lemma lastLines_join s :
  let lines := split_nl s in
  let base := join_nl (lastLines 2000 lines) in
  (lineCount base <= 2000)%nat
  /\ (overLines MAX_OUTPUT_LINES lines = false -> base = s)
  /\ (overLines MAX_OUTPUT_LINES lines = true -> (length base < length s)%nat).
Proof.
  intros lines base. unfold overLines, MAX_OUTPUT_LINES.
  repeat split.
  - unfold base, lineCount.
    rewrite split_join by (apply lastLines_nonempty || apply lastLines_noNL).
    rewrite lastLines_length. lia.
  - intros H. rewrite Z.gtb_ltb in H. apply Z.ltb_ge in H.
    unfold base, lastLines.
    replace (length lines - 2000)%nat with 0%nat by lia.
    rewrite skipn_O. apply join_split.
  - intros H. rewrite Z.gtb_ltb in H. apply Z.ltb_lt in H.
    unfold base, lastLines.
    replace (length s) with (length (join_nl lines))
      by (unfold lines; now rewrite join_split).
    apply join_skipn_shorter. lia.
Qed.

(** Under the two constants of [types.ts], [truncateOutput] returns. *)
Lemma truncateOutput_returns (output : jsstring) :
  exists shaped,
    truncateOutput output MAX_OUTPUT_BYTES MAX_OUTPUT_LINES = Some shaped.
Proof.
  unfold truncateOutput.
  set (result := join_nl (capLines MAX_OUTPUT_LINES (split_nl output))).
  destruct (byteLength result >? MAX_OUTPUT_BYTES); [|eauto].
  destruct (byteLoop_returns (length result) MAX_OUTPUT_BYTES result)
    as (k & -> & _); [unfold MAX_OUTPUT_BYTES; lia|lia|eauto].
Qed.

Lemma halvedLength_le k len : (halvedLength k len <= len)%nat.
Proof.
  revert len. induction k as [|k IH]; intros len; cbn [halvedLength]; [lia|].
  specialize (IH (len - Nat.div len 2)%nat). lia.
Qed.

(** Dropping the first half [k] times leaves the last [halvedLength k]
    code units. *)
Lemma iter_dropFirstHalf_lastUnits k s :
  Nat.iter k dropFirstHalf s = lastUnits (halvedLength k (length s)) s.
Proof.
  revert s. induction k as [|k IH]; intros s.
  - unfold lastUnits. cbn [Nat.iter halvedLength].
    now rewrite Nat.sub_diag, skipn_O.
  - rewrite <- iter_dropFirstHalf_comm, IH, dropFirstHalf_length.
    cbn [halvedLength]. unfold lastUnits, dropFirstHalf.
    rewrite length_skipn, skipn_skipn. f_equal.
    pose proof (halvedLength_le k (length s - Nat.div (length s) 2)).
    assert (Nat.div (length s) 2 <= length s)%nat
      by (apply Nat.Div0.div_le_upper_bound; lia).
    lia.
Qed.

(** C5. For every input string [truncateOutput], under [MAX_OUTPUT_BYTES]
    and [MAX_OUTPUT_LINES], returns. With [base] the text of the last 2000
    lines of the input, the output is what is left of [base] after its
    first half (half of its length, rounded down, counted in code units)
    has been dropped [k] times, that is, its last [halvedLength k] code
    units; each of the [k] earlier stages is over the byte cap. The output
    has at most 50 KiB of UTF-8 and at most 2000 lines, and [truncated]
    holds exactly when the output differs from the input. *)
Theorem truncateOutput_caps (output : jsstring) :
  exists out truncated k,
    truncateOutput output MAX_OUTPUT_BYTES MAX_OUTPUT_LINES = Some (out, truncated)
    /\ out = lastUnits
               (halvedLength k
                  (length (join_nl (lastLines 2000 (split_nl output)))))
               (join_nl (lastLines 2000 (split_nl output)))
    /\ (forall j, (j < k)%nat ->
          byteLength
            (lastUnits
               (halvedLength j
                  (length (join_nl (lastLines 2000 (split_nl output)))))
               (join_nl (lastLines 2000 (split_nl output))))
          > MAX_OUTPUT_BYTES)
    /\ byteLength out <= MAX_OUTPUT_BYTES
    /\ Z.of_nat (lineCount out) <= MAX_OUTPUT_LINES
    /\ (truncated = true <-> out <> output).
Proof.
  set (base := join_nl (lastLines 2000 (split_nl output))).
  unfold truncateOutput. rewrite capLines_lastLines. fold base.
  destruct (lastLines_join output) as (Hlines & Hsame & Hless).
  fold base in Hlines, Hsame, Hless.
  assert (Hbase : (length base <= length output)%nat).
  { destruct (overLines MAX_OUTPUT_LINES (split_nl output)) eqn:Ho.
    - specialize (Hless eq_refl). lia.
    - rewrite (Hsame eq_refl). lia. }
  destruct (Z.gtb_spec (byteLength base) MAX_OUTPUT_BYTES) as [Hover|Hfit].
  - destruct (byteLoop_returns (length base) MAX_OUTPUT_BYTES base)
      as (k & Hrun & Hfit & Hbefore & Hshort);
      [unfold MAX_OUTPUT_BYTES; lia|lia|].
    rewrite Hrun. exists (Nat.iter k dropFirstHalf base), true, k.
    split; [reflexivity|].
    split; [apply iter_dropFirstHalf_lastUnits|].
    split; [intros j Hj; rewrite <- iter_dropFirstHalf_lastUnits;
            now apply Hbefore|].
    repeat split; try assumption.
    + destruct (iter_dropFirstHalf_suffix k base) as [n ->].
      pose proof (lineCount_skipn n base). unfold MAX_OUTPUT_LINES. lia.
    + intros _ Heq. specialize (Hshort ltac:(lia)). rewrite Heq in Hshort. lia.
  - exists base, (overLines MAX_OUTPUT_LINES (split_nl output)), 0%nat.
    split; [reflexivity|].
    split; [apply (iter_dropFirstHalf_lastUnits 0 base)|].
    split; [intros j Hj; lia|].
    repeat split; try assumption.
    + unfold MAX_OUTPUT_LINES. lia.
    + intros Ho Heq. specialize (Hless Ho). rewrite Heq in Hless. lia.
    + intros Hne. destruct (overLines MAX_OUTPUT_LINES (split_nl output));
        [reflexivity|]. now specialize (Hsame eq_refl).
Qed.

(** ** [getFinalOutput] *)

Lemma firstText_none parts :
  firstText parts = None <-> ~ hasTextPart parts.
Proof.
  unfold hasTextPart. induction parts as [|p parts IH]; simpl.
  - split; [intros _ [t []]|reflexivity].
  - destruct p; try (rewrite IH; split;
      [intros H [t [Ht|Ht]]; [discriminate|eauto]
      |intros H [t Ht]; apply H; eauto]).
    split; [discriminate|]. intros H. exfalso. apply H. eauto.
Qed.

Lemma firstText_first pre t post :
  ~ hasTextPart pre -> firstText (pre ++ TextPart t :: post) = Some t.
Proof.
  induction pre as [|p pre IH]; intros H; [reflexivity|].
  assert (Hpre : ~ hasTextPart pre).
  { intros [t' Ht']. apply H. exists t'. now right. }
  destruct p; simpl; try (now apply IH).
  exfalso. apply H. eexists. now left.
Qed.

Lemma scanBack_skip skipped rest :
  (forall m, In m skipped -> isAssistant m = true -> ~ hasTextPart (m_content m)) ->
  scanBack (skipped ++ rest) = scanBack rest.
Proof.
  induction skipped as [|m skipped IH]; intros H; [reflexivity|].
  simpl. destruct (isAssistant m) eqn:Hm.
  - assert (Hnone : firstText (m_content m) = None).
    { apply firstText_none, H; [now left|assumption]. }
    rewrite Hnone. apply IH. intros m' Hin. apply H. now right.
  - apply IH. intros m' Hin. apply H. now right.
Qed.

(** C9, as stated, fails: on one assistant message with the text parts
    "a" and "b" the output is "a", the first text part, where the claim
    names the last one, "b". *)
Lemma getFinalOutput_not_last_text :
  getFinalOutput
    [mkMessage assistant
       [TextPart (lit "a"); ToolCallPart (lit "read"); TextPart (lit "b")]
       None None] = lit "a"
  /\ claimedFinalOutput
       [mkMessage assistant
          [TextPart (lit "a"); ToolCallPart (lit "read"); TextPart (lit "b")]
          None None] = lit "b"
  /\ getFinalOutput
       [mkMessage assistant
          [TextPart (lit "a"); ToolCallPart (lit "read"); TextPart (lit "b")]
          None None]
     <> claimedFinalOutput
          [mkMessage assistant
             [TextPart (lit "a"); ToolCallPart (lit "read"); TextPart (lit "b")]
             None None].
Proof. repeat split. discriminate. Qed.

(** C9, amended. The final output is the first text part of the last
    assistant message that has a text part, and the empty string when no
    assistant message has one. *)
Theorem getFinalOutput_first_text_of_last (messages : list Message) :
  (forall earlier msg later before t after,
      messages = earlier ++ msg :: later ->
      m_role msg = assistant ->
      m_content msg = before ++ TextPart t :: after ->
      ~ hasTextPart before ->
      (forall m, In m later -> m_role m = assistant -> ~ hasTextPart (m_content m)) ->
      getFinalOutput messages = t)
  /\ ((forall m, In m messages -> m_role m = assistant -> ~ hasTextPart (m_content m)) ->
      getFinalOutput messages = []).
Proof.
  assert (Hrole : forall m, isAssistant m = true -> m_role m = assistant).
  { intros m. unfold isAssistant. destruct (m_role m); congruence. }
  split.
  - intros earlier msg later before t after -> Hmsg Hcontent Hbefore Hlater.
    unfold getFinalOutput. rewrite rev_app_distr. cbn [rev].
    rewrite <- app_assoc. rewrite scanBack_skip.
    + cbn [app scanBack]. unfold isAssistant at 1. rewrite Hmsg.
      rewrite Hcontent. now rewrite firstText_first.
    + intros m Hin Hm. apply Hlater; [now apply in_rev|now apply Hrole].
  - intros Hnone. unfold getFinalOutput.
    rewrite <- (app_nil_r (rev messages)). rewrite scanBack_skip; [reflexivity|].
    intros m Hin Hm. apply Hnone; [now apply in_rev|now apply Hrole].
Qed.

Lemma getFinalOutput_first_text_of_last_witness :
  getFinalOutput
    [mkMessage user [TextPart (lit "q")] None None;
     mkMessage assistant [ThinkingPart (lit "h"); TextPart (lit "a"); TextPart (lit "b")]
       None None;
     mkMessage assistant [ToolCallPart (lit "read")] None None;
     mkMessage toolResult [TextPart (lit "file")] None None] = lit "a".
Proof.
  refine (proj1 (getFinalOutput_first_text_of_last _)
            [mkMessage user [TextPart (lit "q")] None None]
            (mkMessage assistant
               [ThinkingPart (lit "h"); TextPart (lit "a"); TextPart (lit "b")]
               None None)
            [mkMessage assistant [ToolCallPart (lit "read")] None None;
             mkMessage toolResult [TextPart (lit "file")] None None]
            [ThinkingPart (lit "h")] (lit "a") [TextPart (lit "b")]
            eq_refl eq_refl eq_refl _ _).
  - intros [t [H|[]]]. discriminate.
  - intros m [<-|[<-|[]]] Hrole; [|discriminate].
    intros [t [H|[]]]. discriminate.
Defined.

(** ** The tail of [runAgent] *)

Lemma apiErrorOf_signals m t :
  isAssistant m = true ->
  (apiErrorOf m = Some t <-> signalsApiError (MessageEnd (Some m)) t).
Proof.
  intros Hm. unfold apiErrorOf, signalsApiError, JS.eqb. split.
  - intros H. exists m.
    destruct (m_stopReason m) as [reason|] eqn:Hr; [|discriminate].
    destruct (m_errorMessage m) as [[|c text]|] eqn:He; try discriminate.
    destruct (decide (reason = lit "error")) as [->|]; [|discriminate].
    injection H as <-. unfold isAssistant in Hm.
    destruct (m_role m) eqn:Hrole; try discriminate Hm.
    repeat split; try congruence.
  - intros (m' & [= <-] & _ & -> & -> & Ht).
    destruct t; [contradiction|].
    destruct (decide (lit "error" = lit "error")); [reflexivity|congruence].
Qed.

Lemma processLine_quiet st e :
  (forall t, ~ signalsApiError e t) -> apiError (processLine st e) = apiError st.
Proof.
  intros H. destruct e as [[m|]| | |[m|]|]; try reflexivity.
  simpl. destruct (isAssistant m) eqn:Hm; [|reflexivity].
  destruct (apiErrorOf m) as [t|] eqn:Ht; [|reflexivity].
  exfalso. apply (H t). now apply apiErrorOf_signals.
Qed.

Lemma processLine_signal st e t :
  signalsApiError e t -> apiError (processLine st e) = t.
Proof.
  intros H. pose proof H as (m & -> & Hrole & _).
  assert (Hm : isAssistant m = true) by (unfold isAssistant; now rewrite Hrole).
  apply apiErrorOf_signals in H; [|assumption].
  simpl. now rewrite Hm, H.
Qed.

Lemma fold_processLine_quiet events st :
  (forall e t, In e events -> ~ signalsApiError e t) ->
  apiError (fold_left processLine events st) = apiError st.
Proof.
  revert st. induction events as [|e events IH]; intros st H; [reflexivity|].
  cbn [fold_left]. rewrite IH.
  - apply processLine_quiet. intros t. apply H. now left.
  - intros e' t Hin. apply H. now right.
Qed.

(** C6. When the child exits with code 0: if an assistant message carried
    [stopReason == "error"] with a non-empty [errorMessage], the result has
    [exitCode = 1] and [error] equal to the message recorded last; if no
    message did, [exitCode] stays 0 and [error] stays unset. *)
Theorem runAgent_api_error (options : ExecutorOptions) (child : ChildRun) :
  c_exitCode child = 0 ->
  (forall before e after t,
      c_events child = before ++ e :: after ->
      signalsApiError e t ->
      (forall e' t', In e' after -> ~ signalsApiError e' t') ->
      exists r, runAgent options child = Some r
                /\ r_exitCode r = 1 /\ r_error r = Some t)
  /\ ((forall e t, In e (c_events child) -> ~ signalsApiError e t) ->
      exists r, runAgent options child = Some r
                /\ r_exitCode r = 0 /\ r_error r = None).
Proof.
  intros Hexit. unfold runAgent.
  set (st := fold_left processLine (c_events child) (mkRunState [] [])).
  destruct (truncateOutput_returns (getFinalOutput (messages st)))
    as (shaped & ->).
  split.
  - intros before e after t Hev He Hafter.
    assert (Hst : apiError st = t).
    { unfold st. rewrite Hev, fold_left_app. cbn [fold_left].
      rewrite fold_processLine_quiet by assumption.
      now apply processLine_signal. }
    eexists. split; [reflexivity|].
    unfold finishRun. rewrite Hst, Hexit. cbn.
    destruct He as (_ & _ & _ & _ & _ & Ht). destruct t; [contradiction|].
    split; reflexivity.
  - intros Hquiet.
    assert (Hst : apiError st = []).
    { unfold st. now rewrite fold_processLine_quiet. }
    eexists. split; [reflexivity|].
    unfold finishRun. rewrite Hst, Hexit. cbn. split; reflexivity.
Qed.

Lemma runAgent_api_error_witness :
  exists r,
    runAgent sampleOptions apiErrorChild = Some r
    /\ r_exitCode r = 1 /\ r_error r = Some (lit "401 unauthorized").
Proof.
  refine (proj1 (runAgent_api_error sampleOptions apiErrorChild eq_refl)
            [MessageEnd (Some (mkMessage assistant [TextPart (lit "hi")] None None))]
            (MessageEnd (Some (mkMessage assistant [] (Some (lit "error"))
                                         (Some (lit "401 unauthorized")))))
            [ToolExecutionEnd] (lit "401 unauthorized") eq_refl _ _).
  - eexists. repeat split. discriminate.
  - intros e' t' [<-|[]] (m & Hm & _). discriminate.
Defined.

(** ** [writeTaskResult] *)

(** C10. The file name is not injective in the task id: the ids "a/b" and
    "a:b" differ, get the same path, and the second write leaves the file
    system as if the first had not happened; the object written always
    carries the id as given. *)
Theorem writeTaskResult_collision :
  lit "a/b" <> lit "a:b"
  /\ (forall workspace,
        taskFilePath workspace (lit "a/b") = taskFilePath workspace (lit "a:b"))
  /\ (forall fs workspace output1 status1 now1 output2 status2 now2,
        writeTaskResult
          (writeTaskResult fs workspace (lit "a/b") output1 status1 now1)
          workspace (lit "a:b") output2 status2 now2
        = writeTaskResult fs workspace (lit "a:b") output2 status2 now2)
  /\ (forall fs workspace taskId output status now,
        f_id <$> (writeTaskResult fs workspace taskId output status now
                  !! taskFilePath workspace taskId) = Some taskId).
Proof.
  split; [discriminate|]. split; [reflexivity|]. split.
  - intros. unfold writeTaskResult.
    change (taskFilePath workspace (lit "a/b"))
      with (taskFilePath workspace (lit "a:b")).
    apply insert_insert_eq.
  - intros. unfold writeTaskResult. now rewrite lookup_insert_eq.
Qed.

(** ** The dispatcher *)

(** C3, as stated, fails: with a blank [task] next to a chain of one step,
    two of the five mode properties are supplied, yet the chain runs: the
    executor is called once and the response is the output of the step. *)
Lemma supplied_twice_still_runs :
  suppliedCount blankTaskWithChain = 2
  /\ length (snd (sampleExecute (lit "done") blankTaskWithChain)) = 1%nat
  /\ text (fst (sampleExecute (lit "done") blankTaskWithChain)) = lit "done"
  /\ startsWith (text (fst (sampleExecute (lit "done") blankTaskWithChain)))
                (lit "Invalid parameters") = false.
Proof. repeat split. Qed.

Section DispatcherFacts.

Variable findAgent : list AgentConfig -> jsstring -> option AgentConfig.
Variable formatAgentList : list AgentConfig -> Z -> jsstring.
Variable agents : list AgentConfig.
Variable spawn : nat -> ExecutorOptions -> TaskResult.
Variable elapsedMs : Z.
Variable raceMode : ParallelParams -> RaceConfig -> Response * list ExecutorOptions.
Variable parallelMode :
  ParallelParams -> list TaskItem -> Q -> Response * list ExecutorOptions.
Variable teamMode :
  ParallelParams -> TeamConfig -> Q -> Response * list ExecutorOptions.

Local Abbreviation run :=
  (execute findAgent formatAgentList agents spawn elapsedMs raceMode
           parallelMode teamMode).

(** C3, amended. When the number of modes given with a non-empty value
    (a [task] that is not blank, a non-empty [tasks] or [chain], a [race],
    a [team]) is not 1, the dispatcher answers with a text that begins
    "Invalid parameters", no results and duration 0, and calls the
    executor not once. *)
Theorem execute_rejects_mode_count (params : ParallelParams) :
  modeCount params <> 1 ->
  snd (run params) = []
  /\ startsWith (text (fst (run params))) (lit "Invalid parameters") = true
  /\ d_results (fst (run params)) = []
  /\ d_totalDurationMs (fst (run params)) = 0.
Proof.
  intros H. unfold execute.
  destruct (Z.eqb_spec (modeCount params) 1) as [Heq|_]; [contradiction|].
  cbn [negb fst snd]. repeat split.
Qed.

End DispatcherFacts.

Lemma execute_rejects_mode_count_witness :
  snd (sampleExecute [] noParams) = []
  /\ startsWith (text (fst (sampleExecute [] noParams)))
                (lit "Invalid parameters") = true
  /\ d_results (fst (sampleExecute [] noParams)) = []
  /\ d_totalDurationMs (fst (sampleExecute [] noParams)) = 0.
Proof.
  apply (execute_rejects_mode_count noAgent noAgentList [] (succeedWith []) 0
                                    idle idle3 idle3 noParams).
  vm_compute. discriminate.
Defined.

(** ** Chain mode *)

Lemma getSubstitution_plain matched before after replacement :
  hasDollarPattern replacement = false ->
  getSubstitution matched before after replacement = replacement.
Proof.
  induction replacement as [|c rest IH]; intros H; [reflexivity|].
  cbn [hasDollarPattern] in H. apply orb_false_iff in H as [Hc Hrest].
  cbn [getSubstitution]. destruct (c =? 36)%N.
  - destruct rest as [|d rest']; [reflexivity|].
    cbn [andb] in Hc.
    apply orb_false_iff in Hc as [Hc H39].
    apply orb_false_iff in Hc as [Hc H96].
    apply orb_false_iff in Hc as [H36 H38].
    rewrite H36, H38, H96, H39. f_equal. now apply IH.
  - f_equal. now apply IH.
Qed.

Lemma replaceFrom_plain pat replacement s :
  hasDollarPattern replacement = false ->
  forall before skip,
    replaceFrom pat replacement before skip s
    = substituteFrom pat replacement skip s.
Proof.
  intros H. induction s as [|c rest IH]; intros before skip; [reflexivity|].
  cbn [replaceFrom substituteFrom]. destruct skip as [|skip]; [|apply IH].
  destruct (startsWith (c :: rest) pat).
  - rewrite getSubstitution_plain by assumption. f_equal. apply IH.
  - f_equal. apply IH.
Qed.

Lemma previousOutput_app results more i :
  (i <= length results)%nat ->
  previousOutput (results ++ more) i = previousOutput results i.
Proof.
  intros Hi. destruct i as [|j]; [reflexivity|].
  unfold previousOutput. rewrite lookup_app_l by lia. reflexivity.
Qed.

Section ChainFacts.

Variable findAgent : list AgentConfig -> jsstring -> option AgentConfig.
Variable formatAgentList : list AgentConfig -> Z -> jsstring.
Variable agents : list AgentConfig.
Variable spawn : nat -> ExecutorOptions -> TaskResult.
Variable elapsedMs : Z.

Local Abbreviation loop := (chainLoop findAgent agents spawn elapsedMs).
Local Abbreviation optionsOf := (stepOptions findAgent agents).

Lemma stepOptions_task i step previous :
  o_task (optionsOf i step previous)
  = replaceAll (lit "{previous}") previous (cs_task step).
Proof. reflexivity. Qed.

(** The loop from step [i] on, started with [i] results and [i] calls. *)
Lemma chainLoop_spec steps :
  forall i previous results calls,
    length calls = i -> length results = i ->
    previous = previousOutput results i ->
    let run := loop steps i previous results calls in
    (exists rs cs, d_results (fst run) = results ++ rs
                   /\ snd run = calls ++ cs /\ length rs = length cs)
    /\ (forall k options,
          (i <= k)%nat -> snd run !! k = Some options ->
          exists step,
            steps !! (k - i)%nat = Some step
            /\ options = optionsOf k step (previousOutput (d_results (fst run)) k)
            /\ d_results (fst run) !! k = Some (spawn k options)
            /\ forall j r, (i <= j < k)%nat ->
                 d_results (fst run) !! j = Some r -> runFailed r = false)
    /\ (forall k r,
          (i <= k)%nat -> d_results (fst run) !! k = Some r ->
          runFailed r = true ->
          length (d_results (fst run)) = S k
          /\ isError (fst run) = true
          /\ text (fst run)
             = lit "Chain stopped at step " ++ ofZ (Z.of_nat k + 1)
               ++ lit ": " ++ chainErrorMsg r)
    /\ ((forall k r, (i <= k)%nat -> d_results (fst run) !! k = Some r ->
           runFailed r = false) ->
        length (d_results (fst run)) = (i + length steps)%nat
        /\ isError (fst run) = false
        /\ text (fst run) = lastOutputText (d_results (fst run))).
Proof.
  induction steps as [|step rest IH]; intros i previous results calls Hc Hr Hp.
  - cbn [chainLoop fst snd makeDetails d_results text isError].
    split; [exists [], []; now rewrite !app_nil_r|].
    split; [|split].
    + intros k options Hk Hlook. apply lookup_lt_Some in Hlook. lia.
    + intros k r Hk Hlook. apply lookup_lt_Some in Hlook. lia.
    + intros _. cbn [length]. repeat split. lia.
  - cbn [chainLoop]. rewrite Hc.
    set (options := optionsOf i step previous).
    set (result := spawn i options).
    assert (Hprev : forall more,
               previousOutput ((results ++ [result]) ++ more) i = previous).
    { intros more. rewrite <- app_assoc, previousOutput_app by lia.
      now rewrite Hp. }
    assert (Hat : forall more,
               ((results ++ [result]) ++ more) !! i = Some result).
    { intros more. rewrite <- app_assoc, lookup_app_r by lia.
      now replace (i - length results)%nat with 0%nat by lia. }
    destruct (runFailed result) eqn:Hfail.
    + cbn [fst snd makeDetails d_results text isError].
      split; [exists [result], [options]; repeat split|].
      assert (Hk : forall A (xs : list A) (x y : A) k,
                 length xs = i -> (i <= k)%nat ->
                 (xs ++ [x]) !! k = Some y -> k = i /\ y = x).
      { intros A xs x y k Hx Hk Hlook.
        pose proof (lookup_lt_Some _ _ _ Hlook) as Hlt.
        rewrite length_app in Hlt. cbn in Hlt.
        assert (k = i) by lia. subst k.
        rewrite lookup_app_r in Hlook by lia.
        replace (i - length xs)%nat with 0%nat in Hlook by lia.
        cbn in Hlook. now injection Hlook as <-. }
      split; [|split].
      * intros k o Hik Hlook.
        destruct (Hk _ _ _ _ _ Hc Hik Hlook) as [-> ->].
        exists step. replace (i - i)%nat with 0%nat by lia.
        split; [reflexivity|].
        specialize (Hprev []). rewrite app_nil_r in Hprev. rewrite Hprev.
        split; [reflexivity|].
        specialize (Hat []). rewrite app_nil_r in Hat.
        split; [exact Hat|]. intros j r Hj. lia.
      * intros k r Hik Hlook Hr'.
        destruct (Hk _ _ _ _ _ Hr Hik Hlook) as [-> ->].
        rewrite length_app. cbn [length]. repeat split. lia.
      * intros Hall. specialize (Hat []). rewrite app_nil_r in Hat.
        specialize (Hall i result (Nat.le_refl _) Hat). congruence.
    + specialize (IH (S i) (r_output result) (results ++ [result])
                     (calls ++ [options])).
      destruct IH as ((rs & cs & Hrs & Hcs & Hlen) & HC & HD & HE).
      * rewrite length_app. cbn. lia.
      * rewrite length_app. cbn. lia.
      * unfold previousOutput. specialize (Hat []).
        rewrite app_nil_r in Hat. now rewrite Hat.
      * set (run := loop rest (S i) (r_output result) (results ++ [result])
                         (calls ++ [options])) in *.
        split; [exists (result :: rs), (options :: cs)|].
        { rewrite Hrs, Hcs, <- !app_assoc. cbn. repeat split. lia. }
        split; [|split].
        -- intros k o Hik Hlook.
           destruct (decide (k = i)) as [->|Hne].
           ++ rewrite Hcs, <- app_assoc, lookup_app_r in Hlook by lia.
              replace (i - length calls)%nat with 0%nat in Hlook by lia.
              cbn in Hlook. injection Hlook as <-.
              exists step. replace (i - i)%nat with 0%nat by lia.
              split; [reflexivity|].
              rewrite Hrs, Hprev. split; [reflexivity|].
              split; [apply Hat|]. intros j r Hj. lia.
           ++ destruct (HC k o ltac:(lia) Hlook)
                as (step' & Hstep & Ho & Hres & Hbefore).
              exists step'.
              replace (k - i)%nat with (S (k - S i)) by lia.
              split; [exact Hstep|]. split; [exact Ho|].
              split; [exact Hres|].
              intros j r Hj Hlookj.
              destruct (decide (j = i)) as [->|Hji].
              ** rewrite Hrs, Hat in Hlookj. congruence.
              ** apply (Hbefore j r); [lia|assumption].
        -- intros k r Hik Hlook Hfailed.
           destruct (decide (k = i)) as [->|Hne].
           ++ rewrite Hrs, Hat in Hlook. congruence.
           ++ apply HD; [lia|assumption|assumption].
        -- intros Hall.
           destruct HE as (Hl & He & Ht).
           { intros k r Hk. apply Hall. lia. }
           cbn [length]. repeat split; [lia|assumption|assumption].
Qed.

Local Abbreviation chainOf :=
  (chainMode findAgent formatAgentList agents spawn elapsedMs).

Lemma missingChainAgents_none steps :
  (forall step agent,
      In step steps -> cs_agent step = Some agent -> agent <> [] ->
      findAgent agents agent <> None) ->
  missingChainAgents findAgent agents steps = [].
Proof.
  intros Hknown. unfold missingChainAgents.
  induction steps as [|step rest IH]; [reflexivity|].
  cbn [flat_map]. rewrite IH by (intros s a Hin; apply Hknown; now right).
  rewrite app_nil_r.
  destruct (cs_agent step) as [[|c agent]|] eqn:Hagent; try reflexivity.
  cbn [truthy].
  destruct (findAgent agents (c :: agent)) eqn:Hfind; [reflexivity|].
  exfalso. apply (Hknown step (c :: agent)); try assumption;
    [now left|discriminate].
Qed.

Lemma runFailed_true r :
  runFailed r = true <-> r_exitCode r <> 0 \/ r_aborted r = true.
Proof.
  unfold runFailed. rewrite orb_true_iff, negb_true_iff, Z.eqb_neq. tauto.
Qed.

Lemma runFailed_false r :
  runFailed r = false <-> r_exitCode r = 0 /\ r_aborted r = false.
Proof.
  unfold runFailed. rewrite orb_false_iff, negb_false_iff, Z.eqb_eq. tauto.
Qed.

(** C8, amended. In chain mode, when every agent named by a step is
    known: the [i]-th run is the run of step [i] on its task text with
    each "{previous}" replaced by the output of the step before (empty
    for the first), taken verbatim when that output holds none of [$$],
    [$&], [$`], [$']; a step whose result has a non-zero exit code or is
    aborted is the last one run, and the response then holds the results
    so far and the text "Chain stopped at step i: " followed by the
    error of that result when it has a non-empty one, else by its output
    when that is not empty, else by "(no output)"; when no step fails all
    steps are run and the text is the output of the last step, or
    "(no output)" when that output is empty. *)
Theorem chainMode_steps (params : ParallelParams) (steps : list ChainStep) :
  (forall step agent,
      In step steps -> cs_agent step = Some agent -> agent <> [] ->
      findAgent agents agent <> None) ->
  length (snd (chainOf params steps))
  = length (d_results (fst (chainOf params steps)))
  /\ (forall i options,
        snd (chainOf params steps) !! i = Some options ->
        exists step,
          steps !! i = Some step
          /\ o_task options
             = replaceAll (lit "{previous}")
                 (previousOutput (d_results (fst (chainOf params steps))) i)
                 (cs_task step)
          /\ (hasDollarPattern
                (previousOutput (d_results (fst (chainOf params steps))) i)
              = false ->
              o_task options
              = substituteAll (lit "{previous}")
                  (previousOutput (d_results (fst (chainOf params steps))) i)
                  (cs_task step))
          /\ d_results (fst (chainOf params steps)) !! i
             = Some (spawn i options)
          /\ forall j r, (j < i)%nat ->
               d_results (fst (chainOf params steps)) !! j = Some r ->
               r_exitCode r = 0 /\ r_aborted r = false)
  /\ (forall i r,
        d_results (fst (chainOf params steps)) !! i = Some r ->
        r_exitCode r <> 0 \/ r_aborted r = true ->
        length (d_results (fst (chainOf params steps))) = S i
        /\ isError (fst (chainOf params steps)) = true
        /\ text (fst (chainOf params steps))
           = lit "Chain stopped at step " ++ ofZ (Z.of_nat i + 1)
             ++ lit ": "
             ++ match r_error r with
                | Some (c :: message) => c :: message
                | _ => match r_output r with
                       | c :: output => c :: output
                       | [] => lit "(no output)"
                       end
                end)
  /\ ((forall r, In r (d_results (fst (chainOf params steps))) ->
         r_exitCode r = 0 /\ r_aborted r = false) ->
      length (d_results (fst (chainOf params steps))) = length steps
      /\ isError (fst (chainOf params steps)) = false
      /\ text (fst (chainOf params steps))
         = match d_results (fst (chainOf params steps))
                 !! (length steps - 1)%nat with
           | Some r => match r_output r with
                       | c :: output => c :: output
                       | [] => lit "(no output)"
                       end
           | None => lit "(no output)"
           end).
Proof.
  intros Hknown. unfold chainMode.
  rewrite (missingChainAgents_none steps Hknown).
  cbn [length Nat.ltb Nat.leb].
  destruct (chainLoop_spec steps 0 [] [] [] eq_refl eq_refl eq_refl)
    as ((rs & cs & Hrs & Hcs & Hlen) & HC & HD & HE).
  set (run := loop steps 0 [] [] []) in *.
  split; [rewrite Hrs, Hcs; cbn; lia|]. split; [|split].
  - intros i options Hlook.
    destruct (HC i options ltac:(lia) Hlook) as (step & Hstep & Ho & Hres & Hb).
    exists step. rewrite Nat.sub_0_r in Hstep.
    split; [exact Hstep|].
    assert (Htask : o_task options
                    = replaceAll (lit "{previous}")
                        (previousOutput (d_results (fst run)) i) (cs_task step)).
    { rewrite Ho at 1. apply stepOptions_task. }
    split; [exact Htask|].
    split; [intros Hplain; rewrite Htask; now apply replaceFrom_plain|].
    split; [exact Hres|]. intros j r Hj Hlookj.
    apply runFailed_false. apply (Hb j r); [lia|assumption].
  - intros i r Hlook Hfailed. apply runFailed_true in Hfailed.
    destruct (HD i r ltac:(lia) Hlook Hfailed) as (Hn & He & Ht).
    split; [assumption|]. split; [assumption|]. rewrite Ht.
    do 3 f_equal. unfold chainErrorMsg, orElse.
    destruct (r_error r) as [[|c message]|]; destruct (r_output r);
      reflexivity.
  - intros Hall. destruct HE as (Hn & He & Ht).
    { intros k r _ Hlook. apply runFailed_false, Hall.
      apply list_elem_of_In. eapply list_elem_of_lookup_2. exact Hlook. }
    split; [assumption|]. split; [assumption|]. rewrite Ht.
    unfold lastOutputText, orElse. rewrite last_lookup.
    cbn [plus] in Hn. rewrite Hn.
    replace (Init.Nat.pred (length steps)) with (length steps - 1)%nat by lia.
    destruct (d_results (fst run) !! (length steps - 1)%nat) as [r|];
      [|reflexivity].
    destruct (r_output r); reflexivity.
Qed.

End ChainFacts.

(** The [$] patterns of the previous output are expanded, not copied: "$&"
    brings the placeholder back, "$$" yields one dollar sign. *)
Example dollar_patterns_are_expanded :
  replaceAll (lit "{previous}") (lit "$&") (lit "echo {previous}")
  = lit "echo {previous}"
  /\ replaceAll (lit "{previous}") (lit "costs $$5") (lit "echo {previous}")
     = lit "echo costs $5"
  /\ substituteAll (lit "{previous}") (lit "costs $$5") (lit "echo {previous}")
     = lit "echo costs $$5".
Proof. repeat split. Qed.

(** C8, as stated, fails: a chain of one step whose run succeeds with an
    empty output answers "(no output)", which is not the output of the
    last step. *)
Lemma chain_text_not_last_output :
  match d_results (fst (sampleExecute [] (withChain [plainStep "say hi"]))) with
  | [result] => runFailed result = false /\ r_output result = []
  | _ => False
  end
  /\ text (fst (sampleExecute [] (withChain [plainStep "say hi"])))
     = lit "(no output)".
Proof. repeat split. Qed.

(** An unknown agent stops the chain before any run: the response lists
    every agent that is missing, in the order of the steps. *)
Example unknown_chain_agents_listed :
  sampleExecute (lit "done")
    (withChain [agentStep "ghost" "plan"; plainStep "build";
                agentStep "phantom" "test"])
  = (mkResponse
       (lit "Unknown agent(s) in chain: ghost, phantom"
        ++ [NL; NL] ++ lit "Available agents [user]: none")
       chain [] 0 false, []).
Proof. reflexivity. Qed.

Lemma chainMode_steps_witness :
  length (snd (chainMode noAgent noAgentList [] echoAgent 0 noParams
                         [plainStep "emit FOO"; plainStep "echo {previous}"]))
  = 2%nat
  /\ text (fst (chainMode noAgent noAgentList [] echoAgent 0 noParams
                          [plainStep "emit FOO"; plainStep "echo {previous}"]))
     = lit "echo emit FOO".
Proof.
  pose proof (chainMode_steps noAgent noAgentList [] echoAgent 0
                noParams [plainStep "emit FOO"; plainStep "echo {previous}"])
    as H.
  destruct H as (Hlen & _ & _ & Hall).
  - intros step agent [<-|[<-|[]]]; discriminate.
  - destruct Hall as (Hn & _ & Ht).
    + intros r Hin. vm_compute in Hin.
      destruct Hin as [<-|[<-|[]]]; split; reflexivity.
    + split; [now rewrite Hlen, Hn|]. rewrite Ht. reflexivity.
Defined.

(** ** [parseReviewDecision] *)

Lemma slice_firstn {A} (xs : list A) (n : nat) :
  (n <= length xs)%nat -> slice xs 0 (Some (Z.of_nat n)) = firstn n xs.
Proof.
  intros Hn. unfold slice, relIndex. change (0 <? 0) with false.
  destruct (Z.ltb_spec (Z.of_nat n) 0) as [H|_]; [lia|].
  cbn [Z.to_nat]. rewrite Nat.min_0_l, skipn_O, Nat.sub_0_r, Nat2Z.id.
  now rewrite Nat.min_l.
Qed.

Section ParserFacts.

Variable toLowerCase : jsstring -> jsstring.

Local Abbreviation parse := (parseReviewDecision toLowerCase).

Lemma scanMarker_skip_blank lines start n :
  (forall j, (start <= j < start + n)%nat -> blank (nth j lines [])) ->
  scanMarker lines (start + n) = scanMarker lines start.
Proof.
  induction n as [|n IH]; intros H; [now rewrite Nat.add_0_r|].
  rewrite Nat.add_succ_r. cbn [scanMarker].
  rewrite (H (start + n)%nat) by lia.
  apply IH. intros j Hj. apply H. lia.
Qed.

Lemma scanMarker_last_line before line after :
  Forall blank after ->
  scanMarker (before ++ line :: after) (length (before ++ line :: after))
  = scanMarker (before ++ line :: after) (S (length before)).
Proof.
  intros Hafter. rewrite length_app. cbn [length].
  replace (length before + S (length after))%nat
    with (S (length before) + length after)%nat by lia.
  apply scanMarker_skip_blank. intros j Hj.
  rewrite app_nth2 by lia.
  replace (j - length before)%nat with (S (j - S (length before))) by lia.
  cbn [nth]. rewrite List.Forall_forall in Hafter. apply Hafter, nth_In. lia.
Qed.

Lemma scanMarker_all_blank lines :
  Forall blank lines -> scanMarker lines (length lines) = None.
Proof.
  intros H. rewrite <- (Nat.add_0_l (length lines)).
  rewrite scanMarker_skip_blank; [reflexivity|].
  intros j Hj. rewrite List.Forall_forall in H. apply H, nth_In.
  unfold jsstring in *. lia.
Qed.

Lemma parse_fallback output :
  scanMarker (split_nl (trim output)) (length (split_nl (trim output))) = None ->
  parse output = (tailSoundsApproved toLowerCase (trim output), trim output).
Proof.
  intros H. unfold parseReviewDecision, tailSoundsApproved. rewrite H.
  now destruct (_ && _ && _).
Qed.

(** C4, amended. [parseReviewDecision] decides on the last line of the
    trimmed output that is not blank, with the white space around that
    line removed: "APPROVED" gives [approved = true], "REVISION_NEEDED"
    gives [approved = false], both with the lines before it, joined and
    trimmed, as feedback; any other line, or no such line, gives the
    trimmed output as feedback and [approved] exactly when the last 200
    code units, lower-cased, hold "approved" and neither "not approved"
    nor "revision". *)
Theorem parseReviewDecision_cases (output : jsstring) :
  (forall before line after,
      split_nl (trim output) = before ++ line :: after ->
      Forall blank after -> ~ blank line ->
      (trim line = lit "APPROVED" ->
       parse output = (true, trim (join_nl before)))
      /\ (trim line = lit "REVISION_NEEDED" ->
          parse output = (false, trim (join_nl before)))
      /\ (trim line <> lit "APPROVED" -> trim line <> lit "REVISION_NEEDED" ->
          parse output
          = (tailSoundsApproved toLowerCase (trim output), trim output)))
  /\ (Forall blank (split_nl (trim output)) ->
      parse output
      = (tailSoundsApproved toLowerCase (trim output), trim output)).
Proof.
  split.
  - intros before line after Hsplit Hafter Hline.
    pose proof (scanMarker_last_line before line after Hafter) as Hscan.
    rewrite <- Hsplit in Hscan.
    assert (Hstep :
              scanMarker (split_nl (trim output)) (S (length before))
              = if JS.eqb (trim line) (lit "APPROVED")
                then Some (true, trim (join_nl before))
                else if JS.eqb (trim line) (lit "REVISION_NEEDED")
                     then Some (false, trim (join_nl before))
                     else None).
    { cbn [scanMarker]. rewrite Hsplit.
      rewrite app_nth2, Nat.sub_diag by lia. cbn [nth].
      rewrite slice_firstn by (rewrite length_app; lia).
      rewrite firstn_app, Nat.sub_diag, firstn_all. cbn [firstn].
      rewrite app_nil_r.
      unfold blank in Hline. destruct (trim line); [contradiction|reflexivity]. }
    rewrite Hstep in Hscan. unfold JS.eqb in Hscan.
    repeat split.
    + intros Heq. unfold parseReviewDecision. rewrite Hscan.
      destruct (decide (trim line = lit "APPROVED")); [reflexivity|contradiction].
    + intros Heq. unfold parseReviewDecision. rewrite Hscan.
      destruct (decide (trim line = lit "APPROVED")) as [Ha|_];
        [rewrite Heq in Ha; discriminate|].
      destruct (decide (trim line = lit "REVISION_NEEDED"));
        [reflexivity|contradiction].
    + intros Ha Hr. apply parse_fallback. rewrite Hscan.
      destruct (decide (trim line = lit "APPROVED")); [contradiction|].
      destruct (decide (trim line = lit "REVISION_NEEDED"));
        [contradiction|reflexivity].
  - intros Hall. apply parse_fallback. now apply scanMarker_all_blank.
Qed.

End ParserFacts.

(** C4, as stated, fails: in "revision ok" followed by the line
    " APPROVED", the last line is not exactly "APPROVED" (nor
    "REVISION_NEEDED") and the lower-cased tail holds "revision", which
    the claim sends to [approved = false] with the whole output as
    feedback; the parser compares the trimmed line and approves, with
    "revision ok" as feedback. *)
Lemma indented_marker_approves :
  split_nl (trim indentedMarker) = [lit "revision ok"; lit " APPROVED"]
  /\ lit " APPROVED" <> lit "APPROVED"
  /\ lit " APPROVED" <> lit "REVISION_NEEDED"
  /\ includes (asciiLower (slice (trim indentedMarker) (-200) None))
              (lit "revision") = true
  /\ parseReviewDecision asciiLower indentedMarker = (true, lit "revision ok").
Proof. repeat split; discriminate. Qed.

Lemma parseReviewDecision_cases_witness :
  parseReviewDecision asciiLower indentedMarker
  = (true, trim (join_nl [lit "revision ok"])).
Proof.
  refine (proj1 (proj1 (parseReviewDecision_cases asciiLower indentedMarker)
                   [lit "revision ok"] (lit " APPROVED") [] eq_refl _ _) eq_refl).
  - constructor.
  - discriminate.
Defined.

(** ** Node maps *)

Lemma eqb_eq a b : JS.eqb a b = true <-> a = b.
Proof. unfold JS.eqb. destruct (decide (a = b)); split; congruence. Qed.


Lemma eqb_neq a b : a <> b -> JS.eqb a b = false.
Proof. unfold JS.eqb. destruct (decide (a = b)); congruence. Qed.










(** ** The review cycle *)



Section ReviewFacts.

Variable toLowerCase : jsstring -> jsstring.
Variable W : World.

Local Abbreviation cycle := (runReviewCycle toLowerCase W).
Local Abbreviation loop := (reviewLoop toLowerCase W).




End ReviewFacts.



(** ** Soundness of the node map along a run *)












(** ** Histories of node maps *)






(** ** The engine keeps the history chained *)


Lemma framed_trans id E1 E2 E3 :
  framed id E1 E2 -> framed id E2 E3 -> framed id E1 E3.
Proof. intros H12 H23 id' Hne. now rewrite H23, H12. Qed.

Section EngineFacts.

Variable toLowerCase : jsstring -> jsstring.
Variable W : World.
Variable maxConcurrency : Q.




















End EngineFacts.

(** ** [buildDag] returns a sound map *)









(** ** The readiness update blocks on a failed dependency *)








Section DependencyFacts.

Variable toLowerCase : jsstring -> jsstring.
Variable W : World.
Variable maxConcurrency : Q.


End DependencyFacts.



(** ** The fuel of the model is enough *)

Lemma mapSet_length_le {V} (m : list (jsstring * V)) k v :
  (length (mapSet m k v) <= S (length m))%nat.
Proof.
  induction m as [|[k' v'] rest IH]; cbn; [lia|].
  destruct (JS.eqb k' k); cbn; lia.
Qed.

Lemma positives_cons k v rest :
  positives ((k, v) :: rest)
  = ((if v >? 0 then 1 else 0) + positives rest)%nat.
Proof. unfold positives. cbn. destruct (v >? 0); reflexivity. Qed.

Lemma positives_present (m : list (jsstring * Z)) k d d' :
  mapGet m k = Some d ->
  (positives (mapSet m k d') + (if d >? 0 then 1 else 0)
   = positives m + (if d' >? 0 then 1 else 0))%nat.
Proof.
  induction m as [|[k' v'] rest IH]; cbn [mapGet mapSet]; [discriminate|].
  destruct (JS.eqb k' k).
  - intros [= ->]. rewrite !positives_cons. lia.
  - intros H. specialize (IH H). rewrite !positives_cons. lia.
Qed.

Lemma positives_absent (m : list (jsstring * Z)) k d' :
  mapGet m k = None ->
  positives (mapSet m k d') = (positives m + (if d' >? 0 then 1 else 0))%nat.
Proof.
  induction m as [|[k' v'] rest IH]; cbn [mapGet mapSet].
  - intros _. rewrite positives_cons. cbn. lia.
  - destruct (JS.eqb k' k); [discriminate|].
    intros H. rewrite !positives_cons, (IH H). lia.
Qed.

(** A turn of the inner loop does not raise the number of nodes still to
    be visited: a node enters the queue only when its degree leaves the
    positive ones. *)
Lemma relax_potential dependedBy :
  forall inDegree queue,
    (length (snd (relax dependedBy inDegree queue))
     + positives (fst (relax dependedBy inDegree queue))
     <= length queue + positives inDegree)%nat.
Proof.
  induction dependedBy as [|depId rest IH]; intros inDegree queue;
    cbn [relax fst snd]; [lia|].
  etransitivity; [apply IH|].
  destruct (mapGet inDegree depId) as [d|] eqn:Hget.
  - pose proof (positives_present inDegree depId d (d - 1) Hget) as Hp.
    destruct (Z.eqb_spec (d - 1) 0) as [Hz|Hz].
    + rewrite length_app. cbn [length].
      replace (d >? 0) with true in Hp by (symmetry; apply Z.gtb_lt; lia).
      replace (d - 1 >? 0) with false in Hp
        by (symmetry; rewrite Z.gtb_ltb; apply Z.ltb_ge; lia).
      lia.
    + revert Hp. destruct (Z.gtb_spec (d - 1) 0), (Z.gtb_spec d 0); lia.
  - rewrite (positives_absent inDegree depId (0 - 1) Hget).
    change (0 - 1 =? 0) with false. change (0 - 1 >? 0) with false.
    cbv iota. lia.
Qed.

Lemma kahn_returns fuel nodes :
  forall inDegree queue visited,
    (length queue + positives inDegree <= fuel)%nat ->
    kahn fuel nodes inDegree queue visited <> None.
Proof.
  induction fuel as [|fuel IH]; intros inDegree queue visited Hfuel.
  - destruct queue; [discriminate|cbn in Hfuel; lia].
  - destruct queue as [|id queue']; [discriminate|].
    cbn [kahn].
    set (dependedBy := match mapGet nodes id with
                       | Some node => n_dependedBy node
                       | None => []
                       end).
    pose proof (relax_potential dependedBy inDegree queue') as Hp.
    destruct (relax dependedBy inDegree queue') as [inDegree' queue''].
    apply IH. cbn [fst snd length] in *. lia.
Qed.

Lemma initial_potential (inDegree : list (jsstring * Z)) :
  (length (map fst (List.filter (fun '(_, degree) => (degree =? 0)%Z) inDegree))
   + positives inDegree <= length inDegree)%nat.
Proof.
  rewrite length_map.
  induction inDegree as [|[k d] rest IH]; [cbn; lia|].
  rewrite positives_cons. cbn [List.filter length].
  destruct (Z.eqb_spec d 0) as [->|Hd]; cbn [length]; [cbn; lia|].
  destruct (d >? 0); lia.
Qed.

Lemma inDegree_length (nodes : NodeMap) :
  forall acc : list (jsstring * Z),
    (length (fold_left
               (fun m '(id, node) =>
                  mapSet m id (Z.of_nat (length (n_dependsOn node))))
               nodes acc)
     <= length acc + length nodes)%nat.
Proof.
  induction nodes as [|[id node] rest IH]; intros acc; cbn [fold_left length];
    [lia|].
  etransitivity; [apply IH|].
  pose proof (mapSet_length_le acc id (Z.of_nat (length (n_dependsOn node)))).
  lia.
Qed.

(** The Kahn loop of [detectCycles] visits a node at most once, so its
    fuel never runs out. *)
Lemma detectCycles_returns nodes : detectCycles nodes <> Diverged.
Proof.
  unfold detectCycles.
  set (inDegree := fold_left _ nodes []).
  set (queue := map fst _).
  destruct (kahn (S (length nodes)) nodes inDegree queue 0) as [[visited d]|] eqn:Hk.
  - destruct (visited <? length nodes)%nat; discriminate.
  - exfalso. revert Hk. apply kahn_returns.
    pose proof (initial_potential inDegree) as Hi.
    pose proof (inDegree_length nodes []) as Hl.
    fold inDegree in Hl. fold queue in Hi. cbn [length] in Hl. lia.
Qed.

Lemma linkDeps_returns id deps :
  forall nodes, linkDeps id deps nodes <> Diverged.
Proof.
  induction deps as [|depId deps IH]; intros nodes; cbn; [discriminate|].
  destruct (mapHas nodes depId); [apply IH|discriminate].
Qed.

Lemma linkAll_returns entries :
  forall nodes, linkAll entries nodes <> Diverged.
Proof.
  induction entries as [|[id deps] entries IH]; intros nodes; cbn;
    [discriminate|].
  pose proof (linkDeps_returns id deps nodes).
  destruct (linkDeps id deps nodes); [apply IH|discriminate|contradiction].
Qed.

(** [buildDag] returns a node map or throws. *)
Lemma buildDag_returns tasks members : buildDag tasks members <> Diverged.
Proof.
  unfold buildDag. destruct (findDuplicate [] tasks); [discriminate|].
  pose proof (linkAll_returns
                (map (fun '(id, node) => (id, n_dependsOn node))
                     (createNodes members tasks))
                (createNodes members tasks)) as Hlink.
  destruct (linkAll _ _) as [linked| |]; [|discriminate|contradiction].
  destruct (checkAssignees members linked); [discriminate|].
  pose proof (detectCycles_returns linked).
  destruct (detectCycles linked); [discriminate|discriminate|contradiction].
Qed.

Section ReviewFuel.

Variable toLowerCase : jsstring -> jsstring.
Variable W : World.

(** A counter is within a bound exactly when it is within its integer
    part. *)
Lemma Qle_bool_floor (i : Z) (q : Q) :
  Qle_bool (inject_Z i) q = (i <=? Qfloor q).
Proof.
  destruct (Z.leb_spec i (Qfloor q)) as [H|H].
  - apply Qle_bool_iff. eapply Qle_trans; [|apply Qfloor_le].
    now rewrite <- Zle_Qle.
  - apply not_true_is_false. rewrite Qle_bool_iff. intros Hle.
    apply Qfloor_resp_le in Hle. rewrite Qfloor_Z in Hle. lia.
Qed.

Lemma reviewLoop_fuel fuel maxIter id :
  forall node E,
    Qfloor maxIter - iterationOf node + 1 <= Z.of_nat fuel ->
    snd (reviewLoop toLowerCase W fuel maxIter id node E) <> ExitOutOfFuel.
Proof.
  induction fuel as [|fuel IH]; intros node E Hfuel; cbn [reviewLoop];
    rewrite Qle_bool_floor.
  - destruct (Z.leb_spec (iterationOf node) (Qfloor maxIter));
      [cbn in Hfuel; lia|].
    discriminate.
  - destruct (Z.leb_spec (iterationOf node) (Qfloor maxIter)); [|discriminate].
    destruct (signalAborted W (e_clock E)); [discriminate|].
    destruct (runFailed _); [discriminate|].
    destruct (_ || _); [discriminate|].
    destruct (runFailed _); [discriminate|].
    apply IH.
    change (iterationOf (withResult _ _)) with (iterationOf node + 1). lia.
Qed.

(** The review cycle never stops for lack of fuel. *)
Lemma runReviewCycle_fuel node E :
  snd (runReviewCycle toLowerCase W node E) <> ExitOutOfFuel.
Proof. unfold runReviewCycle. apply reviewLoop_fuel. lia. Qed.

End ReviewFuel.

(** ** Concurrency limits *)





Section EmittedFacts.

Variable toLowerCase : jsstring -> jsstring.
Variable W : World.




End EmittedFacts.


(** *** The test for cross-references *)








Section ConcurrencyFacts.

Variable findAgent : list AgentConfig -> jsstring -> option AgentConfig.
Variable formatAgentList : list AgentConfig -> Z -> jsstring.
Variable agents : list AgentConfig.
Variable spawn : nat -> ExecutorOptions -> TaskResult.
Variable elapsedMs : Z.
Variable raceMode : ParallelParams -> RaceConfig -> Response * list ExecutorOptions.
Variable parallelMode :
  ParallelParams -> list TaskItem -> Q -> Response * list ExecutorOptions.
Variable teamMode :
  ParallelParams -> TeamConfig -> Q -> Response * list ExecutorOptions.
Variable toLowerCase : jsstring -> jsstring.
Variable W : World.

Local Abbreviation run :=
  (execute findAgent formatAgentList agents spawn elapsedMs raceMode
           parallelMode teamMode).





End ConcurrencyFacts.


(** A negative limit leaves that many ready nodes out at the end, a
    fractional one counts by its integer part: of three ready nodes the
    round starts two under the limit -1, and two under the limit 2.5. *)
Example limit_is_an_index_of_slice :
  map (fun entry => n_status (snd entry))
      (hd [] (rev (e_emitted (fst (runBatch asciiLower allQuiet (-1)%Q
                                            (mkEngine threeReady [] 0 []))))))
  = [running; running; ready]
  /\ map (fun entry => n_status (snd entry))
         (hd [] (rev (e_emitted (fst (runBatch asciiLower allQuiet (5 # 2)%Q
                                               (mkEngine threeReady [] 0 []))))))
     = [running; running; ready].
Proof. vm_compute. split; reflexivity. Qed.

